(** * Pairs-trading strategy: position state machine and rolling analytics

    A shallow embedding of [src/strategy.py] and [src/analytics.py].

    - [Float]     : what a float64 cell of a z-score series is to the state
                    machine (NaN, an infinity, or a number), with the
                    comparisons [strategy] applies to it;
    - [Strategy]  : [strategy], the loop over [positions.iloc[t]];
    - [Binary64]  : the value a binary64 float denotes;
    - [Analytics] : the rolling hedge ratio, spread, z-score and the two
                    analysis pipelines over binary64 floats, with the pandas
                    operations they call (aligned binary operators,
                    [rolling(window)] and its mean, var, std and cov).

    The properties follow the models: first the state machine, then the
    analytics, then what is and is not validated. *)

From Stdlib Require Import QArith Qabs Lia Lqa ZArith Floats.
From stdpp Require Import base list strings.

Set Warnings "-inexact-float".

Local Open Scope Z_scope.

(** ** Float values *)

Module Float.

(** A float64 is NaN, minus or plus infinity, or a number.  Numbers are kept as
    rationals: comparisons, negation and absolute value are exact on floats, so
    they are the same on the rational a float denotes.  [strategy] does no
    arithmetic; the analytics, which do, are modelled on binary64 floats
    ([Analytics]), and [Binary64.of_float] takes their values here. *)
Inductive fval : Type :=
  | NaN
  | NInf
  | PInf
  | Fin (q : Q).

Definition is_nan (v : fval) : bool :=
  match v with NaN => true | _ => false end.

Definition Qltb (a b : Q) : bool := negb (Qle_bool b a).

(** [a < b]; false as soon as one side is NaN. *)
Definition fltb (a b : fval) : bool :=
  match a, b with
  | NaN, _ | _, NaN => false
  | NInf, NInf => false
  | NInf, _ => true
  | _, NInf => false
  | PInf, _ => false
  | Fin _, PInf => true
  | Fin x, Fin y => Qltb x y
  end.

(** [a > b] is [b < a]. *)
Definition fgtb (a b : fval) : bool := fltb b a.

(** [a <= b]; false as soon as one side is NaN. *)
Definition fleb (a b : fval) : bool :=
  match a, b with
  | NaN, _ | _, NaN => false
  | NInf, _ => true
  | _, PInf => true
  | _, NInf => false
  | PInf, _ => false
  | Fin x, Fin y => Qle_bool x y
  end.

(** Unary minus. *)
Definition fneg (v : fval) : fval :=
  match v with
  | NaN => NaN
  | NInf => PInf
  | PInf => NInf
  | Fin q => Fin (- q)
  end.

(** [abs(v)]. *)
Definition fabs (v : fval) : fval :=
  match v with
  | NaN => NaN
  | NInf | PInf => PInf
  | Fin q => Fin (Qabs q)
  end.

End Float.

Import Float.

(** ** The position state machine ([src/strategy.py]) *)

Module Strategy.

(** [s.iloc[i]] for an [i] inside the series; the loop of [strategy] only reads
    and writes positions [0 <= i < T], so the default is never returned. *)
Definition iloc {A} (d : A) (s : list A) (i : nat) : A := default d (s !! i).

Section Loop.

(** The three thresholds; any float value, no ordering is assumed. *)
Variables entry_threshold exit_threshold stop_loss : fval.
Variable z_scores : list fval.

(** One iteration of [for t in range(1, T)], on the mutable series
    [positions]. *)
Definition body (positions : list Z) (t : nat) : list Z :=
  (* 1. carry forward the previous position *)
  let positions := <[t := iloc 0 positions (t - 1)]> positions in
  let z := iloc NaN z_scores t in
  if iloc 0 positions t =? 0 then
    (* 2. flat: entry signals *)
    if fgtb z entry_threshold then <[t := -1]> positions
    else if fltb z (fneg entry_threshold) then <[t := 1]> positions
    else positions
  else
    (* 3. in a trade: exits *)
    if fltb (fabs z) exit_threshold then <[t := 0]> positions
    else if fgtb (fabs z) stop_loss then <[t := 0]> positions
    else positions.

End Loop.

(** [strategy(z_scores, betas, spreads, entry_threshold, exit_threshold,
    stop_loss)].  [betas] and [spreads] are accepted and never read. *)
Definition strategy {TB TS : Type} (z_scores : list fval) (betas : TB) (spreads : TS)
    (entry_threshold exit_threshold stop_loss : fval) : list Z :=
  let T := length z_scores in
  let positions := replicate T 0 in
  foldl (body entry_threshold exit_threshold stop_loss z_scores)
        positions (seq 1 (T - 1)).

(** The defaults of the signature: 2, 0.5 and 4. *)
Definition default_entry : fval := Fin 2.
Definition default_exit : fval := Fin (1 # 2).
Definition default_stop : fval := Fin 4.

End Strategy.

Import Strategy.

(** ** Binary64 values *)

Module Binary64.

(** The value a binary64 float denotes: NaN, an infinity, or the number
    [(-1)^s * m * 2^e] (both zeros denote 0). *)
Definition of_float (f : float) : fval :=
  match Prim2SF f with
  | S754_nan => NaN
  | S754_infinity true => NInf
  | S754_infinity false => PInf
  | S754_zero _ => Fin 0
  | S754_finite s m e => Fin (inject_Z (cond_Zopp s (Z.pos m)) * Qpower 2 e)
  end.

(** A count as a float (exact below 2^53). *)
Definition of_nat (n : nat) : float :=
  PrimFloat.of_uint63 (Uint63.of_Z (Z.of_nat n)).

End Binary64.

Import Binary64.

(** ** The analytics ([src/analytics.py]) *)

Module Analytics.

(** What a call does: it returns a value or raises an exception, named by its
    class. *)
Inductive outcome (A : Type) : Type :=
  | Returns (a : A)
  | Raises (exc : string).
Arguments Returns {A} a.
Arguments Raises {A} exc.

(** Sequencing: an exception raised by a call ends the caller too. *)
#[global] Instance outcome_bind : MBind outcome :=
  λ A B k c, match c with
             | Returns a => k a
             | Raises e => Raises e
             end.

(** A float64 Series over the positional index [0 .. n-1]. *)
Abbreviation Series := (list float).

(** The value of a series at a label, NaN where the series has no such label
    (what reindexing on a larger index gives). *)
Definition at_label (s : Series) (i : nat) : float := default nan (s !! i).

(** A binary operator between two Series: pandas aligns them on the union of
    their indexes and applies the operator label by label, with NaN for a
    label one side lacks.  On two arrays of one length it is the elementwise
    operator of numpy. *)
Definition align_with (f : float → float → float) (x y : Series) : Series :=
  (λ i, f (at_label x i) (at_label y i)) <$> seq 0 (length x `max` length y).

(** *** Rolling windows (pandas [Series.rolling(window)]) *)

(** [s.rolling(window)] refuses a negative window; 0 is accepted. *)
Definition rolling (window : Z) : outcome nat :=
  if window <? 0 then Raises "ValueError" else Returns (Z.to_nat window).

(** Before a window function sees an array, infinities are turned into
    NaN. *)
Definition prep_values (values : Series) : Series :=
  (λ v, if PrimFloat.is_infinity v then nan else v) <$> values.

(** The observations of the window that ends at [t]: the last [w] labels up to
    and including [t], fewer at the start of the series. *)
Definition window_of (w : nat) (s : Series) (t : nat) : Series :=
  drop (t + 1 - w) (take (t + 1) s).

(** The non-missing observations. *)
Definition valid (win : Series) : Series :=
  List.filter (λ v, negb (PrimFloat.is_nan v)) win.

(** What pandas' window functions hold in their running accumulators when
    they reach the window ending at a label: the mean [sum_x / nobs] and the
    variance [ssqdm_x / (nobs - 1)].  They are updated from window to window
    (observations added and removed, with compensation), so the value at a
    label is a function of the window size, the whole array and the label;
    nothing more is assumed of it. *)
Record accumulators : Type := {
  acc_mean : nat → Series → nat → float;
  acc_var : nat → Series → nat → float
}.

Section Rolling.

Variable K : accumulators.

(** [roll_mean(values, start, end, minp)] over windows of size [w]: NaN unless
    the window has at least [minp] observations, and at least one. *)
Definition roll_mean (minp w : nat) (values : Series) : Series :=
  (λ t, let nobs := length (valid (window_of w values t)) in
        if (minp <=? nobs)%nat && (0 <? nobs)%nat
        then acc_mean K w values t
        else nan) <$> seq 0 (length values).

(** [roll_var(values, start, end, minp, ddof=1)]: NaN unless the window has
    at least [max(minp, 1)] observations, and more than [ddof]. *)
Definition roll_var (minp w : nat) (values : Series) : Series :=
  (λ t, let nobs := length (valid (window_of w values t)) in
        if (minp `max` 1 <=? nobs)%nat && (1 <? nobs)%nat
        then acc_var K w values t
        else nan) <$> seq 0 (length values).

(** [roll_sum] of the flags [notna(values)] with [minp = 0]: the number of
    observations of each window (a sum of ones and zeros is exact). *)
Definition roll_count (w : nat) (values : Series) : Series :=
  (λ t, of_nat (length (valid (window_of w values t)))) <$> seq 0 (length values).

(** [min_periods] defaults to the window. *)
Definition rolling_mean (w : nat) (s : Series) : Series :=
  roll_mean w w (prep_values s).

Definition rolling_var (w : nat) (s : Series) : Series :=
  roll_var w w (prep_values s).

(** Square root with the results of negative arguments set to 0. *)
Definition zsqrt (v : float) : float :=
  if PrimFloat.ltb v 0 then 0%float else PrimFloat.sqrt v.

Definition rolling_std (w : nat) (s : Series) : Series :=
  zsqrt <$> rolling_var w s.

(** [x.rolling(w).cov(y)]: both series are first masked by each other
    ([x + 0*y], [y + 0*x]), which also puts them on a common index; then, on
    the prepared arrays,
    [(mean(x*y) - mean(x) * mean(y)) * (count / (count - ddof))] with
    [ddof = 1]. *)
Definition rolling_cov (w : nat) (x y : Series) : Series :=
  let X := align_with PrimFloat.add x (PrimFloat.mul 0 <$> y) in
  let Y := align_with PrimFloat.add y (PrimFloat.mul 0 <$> x) in
  let x_array := prep_values X in
  let y_array := prep_values Y in
  let mean_x_y := roll_mean w w (align_with PrimFloat.mul x_array y_array) in
  let mean_x := roll_mean w w x_array in
  let mean_y := roll_mean w w y_array in
  let count_x_y := roll_count w (align_with PrimFloat.add x_array y_array) in
  align_with PrimFloat.mul
    (align_with PrimFloat.sub mean_x_y (align_with PrimFloat.mul mean_x mean_y))
    (align_with PrimFloat.div count_x_y
                ((λ c, PrimFloat.sub c 1) <$> count_x_y)).

End Rolling.

(** A DataFrame: column labels and rows of cells.  Every column has one cell
    per row, so the columns share one index. *)
Record DataFrame : Type := {
  df_columns : list string;
  df_rows : list (list float)
}.

(** The position of a column label. *)
Fixpoint position (name : string) (labels : list string) : option nat :=
  match labels with
  | [] => None
  | k :: rest => if String.eqb k name then Some 0%nat else S <$> position name rest
  end.

(** [df[name]]. *)
Definition getitem (df : DataFrame) (name : string) : outcome Series :=
  match position name (df_columns df) with
  | None => Raises "KeyError"
  | Some j => Returns ((λ row, at_label row j) <$> df_rows df)
  end.

(** The hedge ratio of a result: one number (static) or a series (dynamic). *)
Inductive hedge : Type :=
  | Static (beta : float)
  | Dynamic (beta : Series).

(** The dict an analysis returns, with its keys [beta], [spread], [zscore]
    and [adf_p]. *)
Record result : Type := {
  res_beta : hedge;
  res_spread : Series;
  res_zscore : Series;
  res_adf_p : float
}.

Section Pipelines.

Variable K : accumulators.

(** The numerical primitives the file calls and does not define: the OLS
    slope of [x] on [y] with a constant ([sm.OLS(...).fit().params[1]]) and
    the p-value of the ADF test ([adfuller(series)[1]]). *)
Variable ols_slope : Series → Series → outcome float.
Variable adfuller_pvalue : Series → outcome float.

Definition compute_static_beta (x y : Series) : outcome float :=
  ols_slope x y.

Definition compute_dynamic_beta (x y : Series) (window : Z) : outcome Series :=
  cov ← (r ← rolling window; Returns (rolling_cov K r x y));
  var ← (r ← rolling window; Returns (rolling_var K r y));
  Returns (align_with PrimFloat.div cov var).

(** [beta * y], [beta] a float or a series. *)
Definition scale (beta : hedge) (y : Series) : Series :=
  match beta with
  | Static b => PrimFloat.mul b <$> y
  | Dynamic bs => align_with PrimFloat.mul bs y
  end.

Definition compute_spread (x y : Series) (beta : hedge) : Series :=
  align_with PrimFloat.sub x (scale beta y).

Definition compute_zscore (series : Series) (window : Z) : outcome Series :=
  mean ← (r ← rolling window; Returns (rolling_mean K r series));
  std ← (r ← rolling window; Returns (rolling_std K r series));
  Returns (align_with PrimFloat.div
             (align_with PrimFloat.sub series mean) std).

Definition adf_test (series : Series) : outcome float :=
  adfuller_pvalue (valid series).

Definition analyze_pair_static (df : DataFrame) (x y : string) (window : Z)
    : outcome result :=
  X ← getitem df x;
  Y ← getitem df y;
  beta ← compute_static_beta X Y;
  let spread := compute_spread X Y (Static beta) in
  zscore ← compute_zscore spread window;
  p_value ← adf_test spread;
  Returns {| res_beta := Static beta; res_spread := spread;
             res_zscore := zscore; res_adf_p := p_value |}.

Definition analyze_pair_dynamic (df : DataFrame) (x y : string) (window : Z)
    : outcome result :=
  X ← getitem df x;
  Y ← getitem df y;
  beta_series ← compute_dynamic_beta X Y window;
  let spread := compute_spread X Y (Dynamic beta_series) in
  zscore ← compute_zscore spread window;
  p_value ← adf_test spread;
  Returns {| res_beta := Dynamic beta_series; res_spread := spread;
             res_zscore := zscore; res_adf_p := p_value |}.

End Pipelines.

(** *** Accumulators of a first window *)

(** The compensated sum of pandas' [add_mean], from the zero state. *)
Definition kahan_sum (obs : Series) : float :=
  fst (foldl (λ '(sum_x, compensation) val,
                let y := PrimFloat.sub val compensation in
                let t := PrimFloat.add sum_x y in
                (t, PrimFloat.sub (PrimFloat.sub t sum_x) y))
             (0%float, 0%float) obs).

(** Welford's update of pandas' [add_var], from the zero state: the number of
    observations, the running mean, the sum of squared deviations and the
    compensation. *)
Definition welford (obs : Series) : float * float * float * float :=
  foldl (λ '(nobs, mean_x, ssqdm_x, compensation) val,
           let nobs := PrimFloat.add nobs 1 in
           let prev_mean := PrimFloat.sub mean_x compensation in
           let y := PrimFloat.sub val compensation in
           let t := PrimFloat.sub y mean_x in
           let compensation := PrimFloat.sub (PrimFloat.add t mean_x) y in
           let mean_x := PrimFloat.add mean_x (PrimFloat.div t nobs) in
           (nobs, mean_x,
            PrimFloat.add ssqdm_x
              (PrimFloat.mul (PrimFloat.sub val prev_mean)
                             (PrimFloat.sub val mean_x)),
            compensation))
        (0%float, 0%float, 0%float, 0%float) obs.

(** The accumulators when the observations of each window are added to the
    zero state.  This is what pandas holds at the first full window of an
    array, before anything was removed; later windows also carry the rounding
    of the earlier updates.  The examples below run on it, and read only
    values that do not depend on the accumulators or that lie at a first full
    window. *)
Definition from_scratch : accumulators := {|
  acc_mean w values t :=
    let obs := valid (window_of w values t) in
    PrimFloat.div (kahan_sum obs) (of_nat (length obs));
  acc_var w values t :=
    let obs := valid (window_of w values t) in
    let '(nobs, _, ssqdm_x, _) := welford obs in
    PrimFloat.div ssqdm_x (PrimFloat.sub nobs 1)
|}.

End Analytics.

Import Analytics.

(** ** Properties of the state machine *)

(** The transition rule in the words of the specification: from FLAT, enter
    short above the entry threshold, long below its negation; in a trade, go
    back to FLAT on a mean-reversion or stop-loss exit, else hold. *)
Definition transition (entry exit stop : fval) (prev : Z) (z : fval) : Z :=
  if prev =? 0 then
    if fgtb z entry then -1
    else if fltb z (fneg entry) then 1
    else 0
  else
    if fltb (fabs z) exit then 0
    else if fgtb (fabs z) stop then 0
    else prev.

Section StrategyFacts.

Variables entry exit stop : fval.
Variable zs : list fval.

Local Abbreviation body := (body entry exit stop zs).
Local Abbreviation next := (transition entry exit stop).

Lemma body_length (p : list Z) (t : nat) : length (body p t) = length p.
Proof.
  unfold Strategy.body.
  repeat case_match; rewrite ?length_insert; reflexivity.
Qed.

Lemma body_lookup_ne (p : list Z) (t i : nat) :
  t ≠ i → body p t !! i = p !! i.
Proof.
  intros Hne. unfold Strategy.body.
  repeat case_match; rewrite ?list_lookup_insert_ne by done; reflexivity.
Qed.

Lemma iloc_insert_eq (p : list Z) (t : nat) (v : Z) :
  (t < length p)%nat → iloc 0 (<[t := v]> p) t = v.
Proof.
  intros Hlt. unfold iloc. rewrite list_lookup_insert_eq by done. reflexivity.
Qed.

Lemma body_lookup_eq (p : list Z) (t : nat) :
  (t < length p)%nat →
  iloc 0 (body p t) t = next (iloc 0 p (t - 1)) (iloc NaN zs t).
Proof.
  intros Hlt. unfold Strategy.body, transition.
  rewrite iloc_insert_eq by done.
  set (prev := iloc 0 p (t - 1)).
  destruct (prev =? 0) eqn:Hprev.
  - apply Z.eqb_eq in Hprev.
    repeat case_match;
      rewrite ?iloc_insert_eq by (rewrite ?length_insert; done);
      try reflexivity.
    exact Hprev.
  - repeat case_match;
      rewrite ?iloc_insert_eq by (rewrite ?length_insert; done);
      reflexivity.
Qed.

(** The state of the loop after the iterations [t = 1 .. k]. *)
Definition run (k : nat) : list Z :=
  foldl body (replicate (length zs) 0) (seq 1 k).

Lemma run_S (k : nat) : run (S k) = body (run k) (S k).
Proof. unfold run. rewrite seq_S, foldl_app. reflexivity. Qed.

Lemma run_length (k : nat) : length (run k) = length zs.
Proof.
  induction k as [|k IH].
  - unfold run. simpl. apply length_replicate.
  - rewrite run_S, body_length. exact IH.
Qed.

(** Iterations only write at their own index: what lies beyond [k] is still
    the initial 0, and index 0 is never written. *)
Lemma run_untouched (k i : nat) :
  (i = 0 ∨ k < i)%nat → (i < length zs)%nat → run k !! i = Some 0.
Proof.
  induction k as [|k IH]; intros Hi Hlt.
  - unfold run. simpl. apply lookup_replicate_2. exact Hlt.
  - rewrite run_S, body_lookup_ne by lia. apply IH; lia.
Qed.

Lemma run_stable (k j i : nat) :
  (i ≤ k)%nat → (k ≤ j)%nat → run j !! i = run k !! i.
Proof.
  intros Hik Hkj. induction Hkj as [|j Hkj IH].
  - reflexivity.
  - rewrite run_S, body_lookup_ne by lia. exact IH.
Qed.

Lemma run_step (k t : nat) :
  (1 ≤ t)%nat → (t ≤ k)%nat → (t < length zs)%nat →
  iloc 0 (run k) t = next (iloc 0 (run k) (t - 1)) (iloc NaN zs t).
Proof.
  intros H1 Hk Hlt.
  unfold iloc at 1 2.
  rewrite (run_stable t k t), (run_stable t k (t - 1)) by lia.
  destruct t as [|t]; [lia|].
  replace (S t - 1)%nat with t by lia.
  rewrite run_S.
  rewrite (body_lookup_ne _ (S t) t) by lia.
  pose proof (body_lookup_eq (run t) (S t)) as Heq.
  rewrite run_length in Heq. specialize (Heq Hlt).
  replace (S t - 1)%nat with t in Heq by lia.
  exact Heq.
Qed.

End StrategyFacts.

Section StrategyResult.

Context {TB TS : Type}.
Variables (zs : list fval) (betas : TB) (spreads : TS).
Variables entry exit stop : fval.

Local Abbreviation positions := (strategy zs betas spreads entry exit stop).

Lemma strategy_run : positions = run entry exit stop zs (length zs - 1).
Proof. reflexivity. Qed.

(** The result has the index of [z_scores]. *)
Lemma strategy_length : length positions = length zs.
Proof. rewrite strategy_run. apply run_length. Qed.

Lemma strategy_first : (0 < length zs)%nat → positions !! 0%nat = Some 0.
Proof.
  intros Hlt. rewrite strategy_run. apply run_untouched; [left; reflexivity | exact Hlt].
Qed.

(** Every later position is the transition of the one before it. *)
Lemma strategy_step (t : nat) :
  (1 ≤ t)%nat → (t < length zs)%nat →
  iloc 0 positions t
  = transition entry exit stop (iloc 0 positions (t - 1)) (iloc NaN zs t).
Proof.
  intros H1 Hlt. rewrite strategy_run. apply run_step; lia.
Qed.

(** The same, on lookups. *)
Lemma strategy_lookup_step (t : nat) (z : fval) (prev : Z) :
  (1 ≤ t)%nat → zs !! t = Some z → positions !! (t - 1)%nat = Some prev →
  positions !! t = Some (transition entry exit stop prev z).
Proof.
  intros H1 Hz Hprev.
  assert (Hlt : (t < length zs)%nat) by (eapply lookup_lt_Some; exact Hz).
  pose proof (strategy_step t H1 Hlt) as Hstep.
  unfold iloc in Hstep. rewrite Hz, Hprev in Hstep. simpl in Hstep.
  destruct (positions !! t) as [v|] eqn:Hv.
  - simpl in Hstep. rewrite Hstep. reflexivity.
  - apply lookup_ge_None_1 in Hv. rewrite strategy_length in Hv. lia.
Qed.

Lemma strategy_lookup_prev (t : nat) :
  (t < length zs)%nat → ∃ prev, positions !! (t - 1)%nat = Some prev.
Proof.
  intros Hlt. apply lookup_lt_is_Some_2. rewrite strategy_length. lia.
Qed.

End StrategyResult.

(** Order facts on float values. *)

Lemma fleb_not_fltb (a b : fval) : fleb a b = true → fltb b a = false.
Proof.
  destruct a as [| | |x], b as [| | |y]; simpl; try congruence.
  unfold Qltb. intros ->. reflexivity.
Qed.

Lemma fltb_nan_l (b : fval) : fltb NaN b = false.
Proof. destruct b; reflexivity. Qed.

Lemma fltb_nan_r (a : fval) : fltb a NaN = false.
Proof. destruct a; reflexivity. Qed.

Lemma fltb_Fin (x y : Q) : fltb (Fin x) (Fin y) = true ↔ (x < y)%Q.
Proof.
  simpl. unfold Qltb. rewrite negb_true_iff.
  split.
  - intros Hle. apply Qnot_le_lt. intros Hyx.
    apply Qle_bool_iff in Hyx. congruence.
  - intros Hlt. destruct (Qle_bool y x) eqn:Hle; [|reflexivity].
    apply Qle_bool_iff in Hle. exfalso. revert Hle. apply Qlt_not_le. exact Hlt.
Qed.

Lemma fleb_Fin (x y : Q) : fleb (Fin x) (Fin y) = true ↔ (x <= y)%Q.
Proof. simpl. apply Qle_bool_iff. Qed.

Lemma is_nan_true (z : fval) : is_nan z = true → z = NaN.
Proof. destruct z; simpl; congruence. Qed.

(** *** The transition rules *)

(** C1. [strategy] returns a position series over the index of the z-scores;
    its first position is 0 (FLAT); at every later step [t] whose z-score is
    defined, a FLAT previous position becomes -1 when [z > entry], else +1
    when [z < -entry], else stays 0, and a non-FLAT previous position becomes
    0 when [|z| < exit], else 0 when [|z| > stop], else is kept. *)
Theorem strategy_transition_rules {TB TS : Type}
    (zs : list fval) (betas : TB) (spreads : TS) (entry exit stop : fval) :
  let p := strategy zs betas spreads entry exit stop in
  length p = length zs
  ∧ ((0 < length zs)%nat → p !! 0%nat = Some 0)
  ∧ ∀ (t : nat) (z : fval) (prev : Z),
      (1 ≤ t)%nat → zs !! t = Some z → is_nan z = false →
      p !! (t - 1)%nat = Some prev →
      (prev = 0 →
         (fgtb z entry = true → p !! t = Some (-1))
         ∧ (fgtb z entry = false → fltb z (fneg entry) = true → p !! t = Some 1)
         ∧ (fgtb z entry = false → fltb z (fneg entry) = false → p !! t = Some 0))
      ∧ (prev ≠ 0 →
         (fltb (fabs z) exit = true → p !! t = Some 0)
         ∧ (fltb (fabs z) exit = false → fgtb (fabs z) stop = true →
            p !! t = Some 0)
         ∧ (fltb (fabs z) exit = false → fgtb (fabs z) stop = false →
            p !! t = Some prev)).
Proof.
  intros p. split; [apply strategy_length|].
  split; [apply strategy_first|].
  intros t z prev H1 Hz _ Hprev.
  pose proof (strategy_lookup_step zs betas spreads entry exit stop t z prev
                H1 Hz Hprev) as Hstep.
  fold p in Hstep. unfold transition in Hstep.
  split.
  - intros ->. simpl in Hstep.
    repeat split; intros; repeat match goal with
      | H : _ = true |- _ => rewrite H in Hstep
      | H : _ = false |- _ => rewrite H in Hstep
      end; exact Hstep.
  - intros Hne. apply Z.eqb_neq in Hne. rewrite Hne in Hstep.
    repeat split; intros; repeat match goal with
      | H : fltb _ _ = _ |- _ => rewrite H in Hstep
      | H : fgtb _ _ = _ |- _ => rewrite H in Hstep
      end; exact Hstep.
Qed.

(** At z-scores [undefined; 3] with the default thresholds the second position
    is an entry into the short side. *)
Lemma strategy_transition_rules_witness :
  strategy [NaN; Fin 3] tt tt default_entry default_exit default_stop !! 1%nat
  = Some (-1).
Proof.
  pose proof (strategy_transition_rules [NaN; Fin 3] tt tt
                default_entry default_exit default_stop) as H.
  destruct H as [_ [_ H]].
  destruct (H 1%nat (Fin 3) 0) as [H0 _].
  - lia.
  - reflexivity.
  - reflexivity.
  - reflexivity.
  - destruct (H0 eq_refl) as [Hshort _]. apply Hshort. reflexivity.
Defined.

(** *** The concrete scenario *)

Definition scenario_z : list fval :=
  [NaN; Fin (1 # 10); Fin (5 # 2); Fin 1; Fin (3 # 10); Fin 5].

(** C2, as the code behaves. With entry 2, exit 0.5, stop 4 and z-scores
    [undefined; 0.1; 2.5; 1.0; 0.3; 5.0], [strategy] returns
    [0; 0; -1; -1; 0; -1]: flat again at index 4, it re-enters the short side
    at index 5, where [5.0 > 2]. *)
Theorem strategy_scenario_reenters :
  strategy scenario_z tt tt (Fin 2) (Fin (1 # 2)) (Fin 4) = [0; 0; -1; -1; 0; -1].
Proof. vm_compute. reflexivity. Qed.

(** C2, as stated, fails: the positions are not [0; 0; -1; -1; 0; 0]. *)
Lemma strategy_scenario_not_flat_at_5 :
  strategy scenario_z tt tt (Fin 2) (Fin (1 # 2)) (Fin 4) ≠ [0; 0; -1; -1; 0; 0].
Proof. vm_compute. discriminate. Qed.

(** The second scenario of the specification: long at index 1, held at
    index 2, stopped out at index 3. *)
Example strategy_scenario_stop_loss :
  strategy [NaN; Fin (-3); Fin (-1); Fin 5] tt tt (Fin 2) (Fin (1 # 2)) (Fin 4)
  = [0; 1; 1; 0].
Proof. vm_compute. reflexivity. Qed.

(** With a misordered configuration in which both exits hold at once
    ([stop < |z| < exit]) the mean-reversion check comes first; either way the
    position is FLAT. *)
Example strategy_exit_checked_first :
  fltb (fabs (Fin 1)) (Fin 3) = true ∧ fgtb (fabs (Fin 1)) (Fin (1 # 2)) = true
  ∧ strategy [NaN; Fin 5; Fin 1] tt tt (Fin 2) (Fin 3) (Fin (1 # 2)) = [0; -1; 0].
Proof. vm_compute. repeat split; reflexivity. Qed.

(** *** Hysteresis *)

Section Hysteresis.

Context {TB TS : Type}.
Variables (zs : list fval) (betas : TB) (spreads : TS).
Variables entry exit stop : fval.

Local Abbreviation p := (strategy zs betas spreads entry exit stop).

(** A z-score inside the closed band [exit <= |z| <= stop]. *)
Definition in_band (z : fval) : Prop :=
  is_nan z = false ∧ fleb exit (fabs z) = true ∧ fleb (fabs z) stop = true.

Lemma transition_in_band (prev : Z) (z : fval) :
  prev ≠ 0 → in_band z → transition entry exit stop prev z = prev.
Proof.
  intros Hne (_ & Hlo & Hhi). unfold transition.
  apply Z.eqb_neq in Hne. rewrite Hne.
  unfold fgtb. rewrite (fleb_not_fltb _ _ Hlo), (fleb_not_fltb _ _ Hhi).
  reflexivity.
Qed.

Lemma transition_to_flat (prev : Z) (z : fval) :
  prev ≠ 0 → transition entry exit stop prev z = 0 →
  fltb (fabs z) exit = true ∨ fgtb (fabs z) stop = true.
Proof.
  intros Hne. unfold transition.
  pose proof Hne as Hneb. apply Z.eqb_neq in Hneb. rewrite Hneb.
  destruct (fltb (fabs z) exit); [left; reflexivity|].
  destruct (fgtb (fabs z) stop); [right; reflexivity|].
  intros ->. contradiction.
Qed.

Lemma transition_from_flat (z : fval) :
  transition entry exit stop 0 z ≠ 0 →
  fgtb z entry = true ∨ fltb z (fneg entry) = true.
Proof.
  unfold transition. simpl.
  destruct (fgtb z entry); [left; reflexivity|].
  destruct (fltb z (fneg entry)); [right; reflexivity|].
  intros Hne. contradiction.
Qed.

(** Held as long as the z-scores stay in the band. *)
Lemma held_in_band (t0 n : nat) (v : Z) :
  (1 ≤ t0)%nat → (t0 + n < length zs)%nat →
  p !! t0 = Some v → v ≠ 0 →
  (∀ s : nat, (t0 < s ≤ t0 + n)%nat → ∃ z, zs !! s = Some z ∧ in_band z) →
  p !! (t0 + n)%nat = Some v.
Proof.
  intros H1 Hlt Hv Hne Hband.
  induction n as [|n IH].
  - rewrite Nat.add_0_r. exact Hv.
  - destruct (Hband (t0 + S n)%nat) as (z & Hz & Hin); [lia|].
    assert (Hprev : p !! (t0 + S n - 1)%nat = Some v).
    { replace (t0 + S n - 1)%nat with (t0 + n)%nat by lia.
      apply IH; [lia|]. intros s Hs. apply Hband. lia. }
    rewrite (strategy_lookup_step zs betas spreads entry exit stop
               (t0 + S n) z v) by (lia || assumption).
    rewrite transition_in_band by assumption. reflexivity.
Qed.

End Hysteresis.

(** C4. Once the position leaves FLAT at a step [t0] (there the z-score is
    above the entry threshold or below its negation), it equals
    [position[t0]] at every later step [t] up to which all z-scores are
    defined and stay in the closed band between the exit threshold and the
    stop loss; and a position goes from a trade back to FLAT only at a step
    where [|z| < exit] or [|z| > stop]. *)
Theorem strategy_hysteresis {TB TS : Type}
    (zs : list fval) (betas : TB) (spreads : TS) (entry exit stop : fval) :
  let p := strategy zs betas spreads entry exit stop in
  (∀ (t0 t : nat) (z0 : fval),
     (1 ≤ t0)%nat → (t0 ≤ t)%nat → (t < length zs)%nat →
     zs !! t0 = Some z0 →
     p !! (t0 - 1)%nat = Some 0 → p !! t0 ≠ Some 0 →
     (∀ s : nat, (t0 < s ≤ t)%nat →
        ∃ z, zs !! s = Some z ∧ in_band exit stop z) →
     (fgtb z0 entry = true ∨ fltb z0 (fneg entry) = true)
     ∧ p !! t = p !! t0)
  ∧ (∀ (t : nat) (z : fval) (prev : Z),
       (1 ≤ t)%nat → zs !! t = Some z →
       p !! (t - 1)%nat = Some prev → prev ≠ 0 → p !! t = Some 0 →
       fltb (fabs z) exit = true ∨ fgtb (fabs z) stop = true).
Proof.
  intros p. split.
  - intros t0 t z0 H1 Hle Hlt Hz0 Hflat Hopen Hband.
    pose proof (strategy_lookup_step zs betas spreads entry exit stop
                  t0 z0 0 H1 Hz0 Hflat) as Ht0.
    fold p in Ht0.
    assert (Hne : transition entry exit stop 0 z0 ≠ 0).
    { intros Heq. apply Hopen. rewrite Ht0, Heq. reflexivity. }
    split; [apply (transition_from_flat entry exit stop); exact Hne|].
    rewrite Ht0.
    replace t with (t0 + (t - t0))%nat by lia.
    apply held_in_band; try assumption; try lia.
    intros s Hs. apply Hband. lia.
  - intros t z prev H1 Hz Hprev Hne Hflat.
    pose proof (strategy_lookup_step zs betas spreads entry exit stop
                  t z prev H1 Hz Hprev) as Hstep.
    fold p in Hstep. rewrite Hstep in Hflat. inversion Hflat as [Heq].
    eapply transition_to_flat; eassumption.
Qed.

(** Short at index 1 and still short at index 3 after z-scores 1.0 and 3.5,
    both inside the band [0.5, 4]. *)
Lemma strategy_hysteresis_witness :
  strategy [NaN; Fin 3; Fin 1; Fin (7 # 2)] tt tt
           default_entry default_exit default_stop !! 3%nat
  = strategy [NaN; Fin 3; Fin 1; Fin (7 # 2)] tt tt
             default_entry default_exit default_stop !! 1%nat.
Proof.
  pose proof (strategy_hysteresis [NaN; Fin 3; Fin 1; Fin (7 # 2)] tt tt
                default_entry default_exit default_stop) as [H _].
  refine (proj2 (H 1%nat 3%nat (Fin 3) _ _ _ _ _ _ _)).
  - lia.
  - lia.
  - simpl. lia.
  - reflexivity.
  - reflexivity.
  - vm_compute. discriminate.
  - intros s Hs.
    assert (Hcases : s = 2%nat ∨ s = 3%nat) by lia.
    destruct Hcases as [-> | ->].
    + exists (Fin 1). split; [reflexivity|]. repeat split.
    + exists (Fin (7 # 2)). split; [reflexivity|]. repeat split.
Defined.

(** *** Undefined z-scores *)

Lemma transition_nan (entry exit stop : fval) (prev : Z) :
  transition entry exit stop prev NaN = prev.
Proof.
  unfold transition, fgtb. simpl.
  rewrite ?fltb_nan_l, ?fltb_nan_r.
  destruct (prev =? 0) eqn:Hprev; [|reflexivity].
  apply Z.eqb_eq in Hprev. symmetry. exact Hprev.
Qed.

(** C5. At every step [t >= 1] whose z-score is undefined the position is the
    previous one, whatever the previous state and the thresholds: every
    comparison against NaN is false, so no entry, exit or stop-loss rule
    fires. *)
Theorem strategy_undefined_carries {TB TS : Type}
    (zs : list fval) (betas : TB) (spreads : TS) (entry exit stop : fval)
    (t : nat) (z : fval) :
  (1 ≤ t)%nat → zs !! t = Some z → is_nan z = true →
  strategy zs betas spreads entry exit stop !! t
  = strategy zs betas spreads entry exit stop !! (t - 1)%nat.
Proof.
  intros H1 Hz Hnan. apply is_nan_true in Hnan. subst z.
  assert (Hlt : (t < length zs)%nat) by (eapply lookup_lt_Some; exact Hz).
  destruct (strategy_lookup_prev zs betas spreads entry exit stop t Hlt)
    as [prev Hprev].
  rewrite (strategy_lookup_step zs betas spreads entry exit stop t NaN prev)
    by assumption.
  rewrite transition_nan, Hprev. reflexivity.
Qed.

(** Short at index 1; the undefined z-score at index 2 keeps the trade. *)
Lemma strategy_undefined_carries_witness :
  strategy [NaN; Fin 3; NaN] tt tt default_entry default_exit default_stop !! 2%nat
  = strategy [NaN; Fin 3; NaN] tt tt default_entry default_exit default_stop !! 1%nat.
Proof.
  apply (strategy_undefined_carries [NaN; Fin 3; NaN] tt tt
           default_entry default_exit default_stop 2%nat NaN).
  - lia.
  - reflexivity.
  - reflexivity.
Defined.

(** *** Inert parameters *)

(** C9. The positions depend on the z-scores and the thresholds only: any two
    choices of [betas] and [spreads] (of any type: a series or a float) give
    the same position series. *)
Theorem strategy_ignores_betas_spreads {TB TS TB' TS' : Type}
    (zs : list fval) (entry exit stop : fval)
    (betas : TB) (spreads : TS) (betas' : TB') (spreads' : TS') :
  strategy zs betas spreads entry exit stop
  = strategy zs betas' spreads' entry exit stop.
Proof. reflexivity. Qed.

(** *** No direct reversal *)

Lemma transition_in_trade (entry exit stop : fval) (prev : Z) (z : fval) :
  prev ≠ 0 →
  transition entry exit stop prev z = prev
  ∨ transition entry exit stop prev z = 0.
Proof.
  intros Hne. unfold transition. apply Z.eqb_neq in Hne. rewrite Hne.
  destruct (fltb (fabs z) exit); [right; reflexivity|].
  destruct (fgtb (fabs z) stop); [right; reflexivity|].
  left; reflexivity.
Qed.

Lemma transition_stop_loss (entry exit stop : fval) (prev : Z) (z : fval) :
  prev ≠ 0 → fgtb (fabs z) stop = true →
  transition entry exit stop prev z = 0.
Proof.
  intros Hne Hstop. unfold transition. apply Z.eqb_neq in Hne.
  rewrite Hne, Hstop. destruct (fltb (fabs z) exit); reflexivity.
Qed.

(** C10. The position never goes from LONG to SHORT or from SHORT to LONG in
    one step: after +1 comes +1 or 0, after -1 comes -1 or 0; and in a trade a
    step with [|z| > stop] lands on FLAT. *)
Theorem strategy_no_direct_reversal {TB TS : Type}
    (zs : list fval) (betas : TB) (spreads : TS) (entry exit stop : fval)
    (t : nat) :
  let p := strategy zs betas spreads entry exit stop in
  (1 ≤ t)%nat → (t < length zs)%nat →
  (p !! (t - 1)%nat = Some 1 → p !! t = Some 1 ∨ p !! t = Some 0)
  ∧ (p !! (t - 1)%nat = Some (-1) → p !! t = Some (-1) ∨ p !! t = Some 0)
  ∧ (∀ (prev : Z) (z : fval),
       p !! (t - 1)%nat = Some prev → prev ≠ 0 → zs !! t = Some z →
       fgtb (fabs z) stop = true → p !! t = Some 0).
Proof.
  intros p H1 Hlt.
  destruct (lookup_lt_is_Some_2 zs t Hlt) as [z Hz].
  assert (Hstep : ∀ prev, p !! (t - 1)%nat = Some prev →
                          p !! t = Some (transition entry exit stop prev z)).
  { intros prev Hprev. apply strategy_lookup_step; assumption. }
  assert (Hkeep : ∀ prev, prev ≠ 0 → p !! (t - 1)%nat = Some prev →
                          p !! t = Some prev ∨ p !! t = Some 0).
  { intros prev Hne Hprev. rewrite (Hstep prev Hprev).
    destruct (transition_in_trade entry exit stop prev z Hne) as [-> | ->];
      [left|right]; reflexivity. }
  split; [apply Hkeep; lia|].
  split; [apply Hkeep; lia|].
  intros prev z' Hprev Hne Hz' Hstop.
  rewrite Hz in Hz'. inversion Hz'; subst z'.
  rewrite (Hstep prev Hprev), transition_stop_loss by assumption.
  reflexivity.
Qed.

(** Long at index 1; the z-score 5.0 at index 2 is beyond the stop loss and
    above the entry threshold: the position is FLAT there, not SHORT. *)
Lemma strategy_no_direct_reversal_witness :
  strategy [NaN; Fin (-3); Fin 5] tt tt
           default_entry default_exit default_stop !! 2%nat = Some 0.
Proof.
  refine (proj2 (proj2 (strategy_no_direct_reversal [NaN; Fin (-3); Fin 5] tt tt
            default_entry default_exit default_stop 2%nat _ _)) 1 (Fin 5) _ _ _ _).
  - lia.
  - simpl. lia.
  - reflexivity.
  - lia.
  - reflexivity.
  - reflexivity.
Defined.

(** ** Binary64 arithmetic *)

(** The facts below read the operations of [PrimFloat] through their
    specification on [spec_float] ([Prim2SF], [add_spec], [div_spec], ...). *)

Lemma Prim2SF_nan : Prim2SF nan = S754_nan.
Proof. reflexivity. Qed.

Lemma is_nan_Prim2SF (f : float) :
  PrimFloat.is_nan f = true ↔ Prim2SF f = S754_nan.
Proof.
  unfold PrimFloat.is_nan. rewrite FloatAxioms.eqb_spec. unfold SFeqb, SFcompare.
  destruct (Prim2SF f) as [s | s | | s m e].
  - split; discriminate.
  - destruct s; split; discriminate.
  - split; reflexivity.
  - rewrite Z.compare_refl.
    assert (Pos.compare_cont Eq m m = Eq) as -> by apply Pos.compare_refl.
    destruct s; simpl; split; discriminate.
Qed.

(** There is one NaN. *)
Lemma is_nan_eq (f : float) : PrimFloat.is_nan f = true → f = nan.
Proof.
  intros H. apply Prim2SF_inj. rewrite Prim2SF_nan. apply is_nan_Prim2SF, H.
Qed.

Lemma is_nan_not (f : float) :
  PrimFloat.is_nan f = false ↔ Prim2SF f ≠ S754_nan.
Proof.
  rewrite <- is_nan_Prim2SF. destruct (PrimFloat.is_nan f); split; congruence.
Qed.

Lemma is_nan_nan : PrimFloat.is_nan nan = true.
Proof. reflexivity. Qed.

Lemma is_infinity_Prim2SF (f : float) :
  PrimFloat.is_infinity f = true ↔ ∃ s : bool, Prim2SF f = S754_infinity s.
Proof.
  unfold PrimFloat.is_infinity. rewrite FloatAxioms.eqb_spec, abs_spec.
  change (Prim2SF infinity) with (S754_infinity false).
  destruct (Prim2SF f) as [s | s | | s m e]; simpl.
  - split; [discriminate | intros [? ?]; discriminate].
  - split; [intros _; eexists; reflexivity | reflexivity].
  - split; [discriminate | intros [? ?]; discriminate].
  - split; [discriminate | intros [? ?]; discriminate].
Qed.

Lemma is_zero_Prim2SF (f : float) :
  PrimFloat.is_zero f = true ↔ ∃ s : bool, Prim2SF f = S754_zero s.
Proof.
  unfold PrimFloat.is_zero. rewrite FloatAxioms.eqb_spec.
  change (Prim2SF zero) with (S754_zero false).
  destruct (Prim2SF f) as [s | s | | s m e]; simpl.
  - split; [intros _; eexists; reflexivity | reflexivity].
  - destruct s; (split; [discriminate | intros [? ?]; discriminate]).
  - split; [discriminate | intros [? ?]; discriminate].
  - destruct s; (split; [discriminate | intros [? ?]; discriminate]).
Qed.

(** A finite float: a zero or a number with mantissa and exponent. *)
Definition number (f : float) : Prop :=
  match Prim2SF f with
  | S754_zero _ | S754_finite _ _ _ => True
  | _ => False
  end.

Lemma is_finite_number (f : float) : PrimFloat.is_finite f = true → number f.
Proof.
  unfold PrimFloat.is_finite, number. intros H.
  apply negb_true_iff, orb_false_iff in H as [Hnan Hinf].
  apply is_nan_not in Hnan.
  destruct (Prim2SF f) as [s | s | | s m e] eqn:Hf; try exact I.
  - assert (PrimFloat.is_infinity f = true)
      by (apply is_infinity_Prim2SF; eexists; exact Hf).
    congruence.
  - congruence.
Qed.

Lemma not_nan_not_infinity_number (f : float) :
  PrimFloat.is_nan f = false → PrimFloat.is_infinity f = false → number f.
Proof.
  intros Hnan Hinf. apply is_finite_number. unfold PrimFloat.is_finite.
  rewrite Hnan, Hinf. reflexivity.
Qed.

(** *** NaN propagates *)

Ltac nan_operand spec op :=
  apply Prim2SF_inj; rewrite spec, ?Prim2SF_nan; unfold op;
  match goal with
  | |- context [Prim2SF ?x] => destruct (Prim2SF x); reflexivity
  | _ => reflexivity
  end.

Lemma add_nan_l (x : float) : (nan + x)%float = nan.
Proof. nan_operand add_spec SFadd. Qed.

Lemma add_nan_r (x : float) : (x + nan)%float = nan.
Proof. nan_operand add_spec SFadd. Qed.


Lemma sub_nan_r (x : float) : (x - nan)%float = nan.
Proof. nan_operand sub_spec SFsub. Qed.

Lemma mul_nan_l (x : float) : (nan * x)%float = nan.
Proof. nan_operand mul_spec SFmul. Qed.

Lemma mul_nan_r (x : float) : (x * nan)%float = nan.
Proof. nan_operand mul_spec SFmul. Qed.

Lemma div_nan_l (x : float) : (nan / x)%float = nan.
Proof. nan_operand div_spec SFdiv. Qed.

Lemma div_nan_r (x : float) : (x / nan)%float = nan.
Proof. nan_operand div_spec SFdiv. Qed.

(** *** Division by zero *)

(** A quotient by a zero: NaN when the numerator is NaN or a zero, an
    infinity otherwise. *)
Lemma div_by_zero (c v : float) :
  PrimFloat.is_zero v = true →
  (PrimFloat.is_nan c || PrimFloat.is_zero c = true → (c / v)%float = nan)
  ∧ (PrimFloat.is_nan c = false → PrimFloat.is_zero c = false →
     (c / v)%float = infinity ∨ (c / v)%float = neg_infinity).
Proof.
  intros Hv. apply is_zero_Prim2SF in Hv as [sv Hv].
  split.
  - intros Hc. apply Prim2SF_inj. rewrite div_spec, Hv, Prim2SF_nan.
    apply orb_true_iff in Hc as [Hc | Hc].
    + apply is_nan_Prim2SF in Hc. rewrite Hc. reflexivity.
    + apply is_zero_Prim2SF in Hc as [sc Hc]. rewrite Hc. reflexivity.
  - intros Hnan Hzero. apply is_nan_not in Hnan.
    assert (Hsign : ∃ s : bool, Prim2SF (c / v) = S754_infinity s).
    { rewrite div_spec, Hv.
      destruct (Prim2SF c) as [s | s | | s m e] eqn:Hc.
      - assert (PrimFloat.is_zero c = true)
          by (apply is_zero_Prim2SF; eexists; exact Hc).
        congruence.
      - eexists; reflexivity.
      - congruence.
      - eexists; reflexivity. }
    destruct Hsign as [[|] Hs].
    + right. apply Prim2SF_inj. rewrite Hs. reflexivity.
    + left. apply Prim2SF_inj. rewrite Hs. reflexivity.
Qed.

(** *** Rounding never invents a NaN *)

Lemma shr_1_nonneg (mrs : shr_record) :
  0 ≤ shr_m mrs → 0 ≤ shr_m (shr_1 mrs).
Proof.
  destruct mrs as [m r s]. simpl.
  destruct m as [|p|p]; simpl; [lia | | lia].
  destruct p; simpl; lia.
Qed.

Lemma iter_shr_1_nonneg (p : positive) (mrs : shr_record) :
  0 ≤ shr_m mrs → 0 ≤ shr_m (SpecFloat.iter_pos shr_1 p mrs).
Proof.
  revert mrs. induction p as [p IH | p IH |]; intros mrs Hm; simpl.
  - apply IH, IH, shr_1_nonneg, Hm.
  - apply IH, IH, Hm.
  - apply shr_1_nonneg, Hm.
Qed.

Lemma shr_fexp_nonneg (prec emax m e : Z) (l : location) :
  0 ≤ m → 0 ≤ shr_m (shr_fexp prec emax m e l).1.
Proof.
  intros Hm. unfold shr_fexp, shr.
  assert (H0 : 0 ≤ shr_m (shr_record_of_loc m l)).
  { destruct l as [|[| |]]; exact Hm. }
  destruct (fexp prec emax (Zdigits2 m + e) - e) as [|p|p]; simpl;
    [exact H0 | | exact H0].
  apply iter_shr_1_nonneg, H0.
Qed.

Lemma round_nearest_even_nonneg (m : Z) (l : location) :
  0 ≤ m → 0 ≤ round_nearest_even m l.
Proof.
  intros Hm. unfold round_nearest_even.
  destruct l as [|[| |]]; try lia. destruct (Z.even m); lia.
Qed.

Lemma binary_round_aux_not_nan (prec emax : Z) (s : bool) (m e : Z)
    (l : location) :
  0 ≤ m → binary_round_aux prec emax s m e l ≠ S754_nan.
Proof.
  intros Hm. unfold binary_round_aux.
  pose proof (shr_fexp_nonneg prec emax m e l Hm) as H1.
  destruct (shr_fexp prec emax m e l) as [mrs' e'] eqn:Hs1. simpl in H1.
  pose proof (shr_fexp_nonneg prec emax
                (round_nearest_even (shr_m mrs') (loc_of_shr_record mrs'))
                e' loc_Exact (round_nearest_even_nonneg _ _ H1)) as H2.
  destruct (shr_fexp prec emax _ e' loc_Exact) as [mrs'' e''] eqn:Hs2.
  simpl in H2.
  destruct (shr_m mrs'') as [|p|p]; [discriminate | | lia].
  destruct (e'' <=? emax - prec); discriminate.
Qed.

Lemma binary_normalize_not_nan (prec emax m e : Z) (szero : bool) :
  binary_normalize prec emax m e szero ≠ S754_nan.
Proof.
  unfold binary_normalize, binary_round.
  destruct m as [|p|p]; [discriminate | |];
    destruct (shl_align _ _ _) as [mz ez];
    apply binary_round_aux_not_nan; lia.
Qed.

(** The difference of two finite floats is a number or an infinity. *)
Lemma sub_number_not_nan (x m : float) :
  number x → number m → PrimFloat.is_nan (x - m) = false.
Proof.
  unfold number. intros Hx Hm. apply is_nan_not. rewrite sub_spec.
  unfold SF64sub, SFsub.
  destruct (Prim2SF x) as [sx | sx | | sx mx ex]; try contradiction;
    destruct (Prim2SF m) as [sm | sm | | sm mm em]; try contradiction.
  - destruct sx, sm; discriminate.
  - discriminate.
  - discriminate.
  - apply binary_normalize_not_nan.
Qed.

(** A quotient by a finite float other than zero is NaN only when the
    numerator is. *)
Lemma div_number_not_nan (n sd : float) :
  PrimFloat.is_nan n = false → number sd → PrimFloat.is_zero sd = false →
  PrimFloat.is_nan (n / sd) = false.
Proof.
  unfold number. intros Hn Hsd Hz. apply is_nan_not in Hn.
  apply is_nan_not. rewrite div_spec. unfold SF64div, SFdiv.
  destruct (Prim2SF sd) as [ss | ss | | ss ms es] eqn:Hs; try contradiction.
  - assert (PrimFloat.is_zero sd = true)
      by (apply is_zero_Prim2SF; eexists; exact Hs).
    congruence.
  - destruct (Prim2SF n) as [sn | sn | | sn mn en]; try discriminate;
      [congruence|].
    destruct (SFdiv_core_binary _ _ _ _ _ _) as [[mz ez] lz] eqn:Hcore.
    apply binary_round_aux_not_nan.
    unfold SFdiv_core_binary in Hcore.
    match type of Hcore with
    | (let '(q, r) := Z.div_eucl ?a ?b in _) = _ =>
        assert (Ha : 0 ≤ a);
        [| pose proof (Z.div_pos a b Ha ltac:(lia)) as Hq;
           unfold Z.div in Hq; destruct (Z.div_eucl a b) as [q r];
           injection Hcore as <- _ _; exact Hq]
    end.
    match goal with
    | |- 0 ≤ match ?s with _ => _ end => destruct s
    end; [lia | apply Z.shiftl_nonneg; lia | lia].
Qed.

(** ** Properties of the analytics *)

(** *** Series built label by label *)

Lemma at_label_tabulate (g : nat → float) (n t : nat) :
  (t < n)%nat → at_label (g <$> seq 0 n) t = g t.
Proof.
  intros Hlt. unfold at_label.
  rewrite list_lookup_fmap, lookup_seq_lt by exact Hlt. reflexivity.
Qed.

Lemma at_label_lookup (s : Series) (t : nat) (v : float) :
  s !! t = Some v → at_label s t = v.
Proof. unfold at_label. intros ->. reflexivity. Qed.

Lemma lookup_at_label (s : Series) (t : nat) :
  (t < length s)%nat → s !! t = Some (at_label s t).
Proof.
  intros Hlt. unfold at_label.
  destruct (lookup_lt_is_Some_2 s t Hlt) as [v ->]. reflexivity.
Qed.

Lemma at_label_beyond (s : Series) (t : nat) :
  (length s ≤ t)%nat → at_label s t = nan.
Proof. intros Hle. unfold at_label. rewrite lookup_ge_None_2 by exact Hle. reflexivity. Qed.

Lemma at_label_fmap (f : float → float) (s : Series) (i : nat) :
  f nan = nan → at_label (f <$> s) i = f (at_label s i).
Proof.
  intros Hf. unfold at_label. rewrite list_lookup_fmap.
  destruct (s !! i); simpl; [reflexivity | symmetry; exact Hf].
Qed.

Lemma at_label_fmap_lt (f : float → float) (s : Series) (i : nat) :
  (i < length s)%nat → at_label (f <$> s) i = f (at_label s i).
Proof.
  intros Hlt. unfold at_label. rewrite list_lookup_fmap.
  destruct (lookup_lt_is_Some_2 s i Hlt) as [v ->]. reflexivity.
Qed.

Lemma align_with_length (f : float → float → float) (x y : Series) :
  length (align_with f x y) = (length x `max` length y)%nat.
Proof. unfold align_with. rewrite length_fmap, length_seq. reflexivity. Qed.

Lemma align_with_at (f : float → float → float) (x y : Series) (t : nat) :
  (t < length x `max` length y)%nat →
  at_label (align_with f x y) t = f (at_label x t) (at_label y t).
Proof.
  intros Hlt. unfold align_with.
  apply (at_label_tabulate (λ i, f (at_label x i) (at_label y i))). exact Hlt.
Qed.

Lemma align_with_lookup (f : float → float → float) (x y : Series) (t : nat) :
  (t < length x `max` length y)%nat →
  align_with f x y !! t = Some (f (at_label x t) (at_label y t)).
Proof.
  intros Hlt. rewrite lookup_at_label by (rewrite align_with_length; exact Hlt).
  rewrite align_with_at by exact Hlt. reflexivity.
Qed.

(** *** Windows and their observations *)

Lemma window_of_length (w : nat) (s : Series) (t : nat) :
  (t < length s)%nat → length (window_of w s t) = (w `min` (t + 1))%nat.
Proof.
  intros Hlt. unfold window_of. rewrite length_drop, length_take. lia.
Qed.

Lemma window_of_length_le (w : nat) (s : Series) (t : nat) :
  (length (window_of w s t) ≤ w `min` (t + 1))%nat.
Proof. unfold window_of. rewrite length_drop, length_take. lia. Qed.

(** The window ending at [t] holds the labels [t + 1 - w .. t]. *)
Lemma window_of_lookup (w : nat) (s : Series) (t i : nat) :
  (t + 1 - w ≤ i ≤ t)%nat →
  window_of w s t !! (i - (t + 1 - w))%nat = s !! i.
Proof.
  intros Hi. unfold window_of. rewrite lookup_drop, lookup_take_lt by lia.
  f_equal. lia.
Qed.

Lemma valid_cons (v : float) (win : Series) :
  valid (v :: win)
  = if negb (PrimFloat.is_nan v) then v :: valid win else valid win.
Proof. reflexivity. Qed.

Lemma valid_length_le (win : Series) : (length (valid win) ≤ length win)%nat.
Proof.
  induction win as [|v win IH]; [reflexivity|].
  rewrite valid_cons. destruct (negb (PrimFloat.is_nan v)); simpl; lia.
Qed.

Lemma valid_full (win : Series) :
  length (valid win) = length win → valid win = win.
Proof.
  induction win as [|v win IH]; [reflexivity|].
  pose proof (valid_length_le win) as Hle.
  rewrite valid_cons. destruct (negb (PrimFloat.is_nan v)); simpl; intros Hlen.
  - f_equal. apply IH. lia.
  - lia.
Qed.

Lemma valid_no_nan (s : Series) :
  Forall (λ v, PrimFloat.is_nan v = false) (valid s).
Proof.
  induction s as [|v s IH]; [constructor|].
  rewrite valid_cons. destruct (PrimFloat.is_nan v) eqn:Hv; simpl; [exact IH|].
  constructor; [exact Hv | exact IH].
Qed.

Lemma valid_id (s : Series) :
  Forall (λ v, PrimFloat.is_nan v = false) s → valid s = s.
Proof.
  induction 1 as [|v s Hv _ IH]; [reflexivity|].
  rewrite valid_cons, Hv, IH. reflexivity.
Qed.

(** A missing value in a window is one observation less. *)
Lemma valid_missing (win : Series) (v : float) :
  v ∈ win → PrimFloat.is_nan v = true →
  (length (valid win) < length win)%nat.
Proof.
  intros Hin Hnan. induction Hin as [v win | v u win Hin IH].
  - rewrite valid_cons, Hnan. simpl.
    pose proof (valid_length_le win). lia.
  - specialize (IH Hnan). rewrite valid_cons.
    destruct (negb (PrimFloat.is_nan u)); simpl; lia.
Qed.

Lemma observations_short (w : nat) (s : Series) (t : nat) :
  (t + 1 < w)%nat → (length (valid (window_of w s t)) < w)%nat.
Proof.
  intros Hw. pose proof (valid_length_le (window_of w s t)).
  pose proof (window_of_length_le w s t). lia.
Qed.

Lemma observations_missing (w : nat) (s : Series) (t i : nat) (v : float) :
  (t + 1 - w ≤ i ≤ t)%nat → s !! i = Some v → PrimFloat.is_nan v = true →
  (length (valid (window_of w s t)) < w)%nat.
Proof.
  intros Hi Hv Hnan.
  assert (Hin : v ∈ window_of w s t).
  { eapply list_elem_of_lookup_2. rewrite window_of_lookup by exact Hi. exact Hv. }
  pose proof (valid_missing _ _ Hin Hnan).
  pose proof (window_of_length_le w s t). lia.
Qed.


(** *** The window functions *)

Lemma prep_values_length (s : Series) : length (prep_values s) = length s.
Proof. unfold prep_values. apply length_fmap. Qed.

Lemma prep_values_lookup_nan (s : Series) (i : nat) :
  s !! i = Some nan → prep_values s !! i = Some nan.
Proof. intros H. unfold prep_values. rewrite list_lookup_fmap, H. reflexivity. Qed.

(** A value that is still a number after [prep_values] was finite. *)
Lemma prep_values_number (s : Series) (i : nat) (v : float) :
  prep_values s !! i = Some v → PrimFloat.is_nan v = false →
  s !! i = Some v ∧ number v.
Proof.
  unfold prep_values. rewrite list_lookup_fmap.
  destruct (s !! i) as [u|]; simpl; [|discriminate].
  destruct (PrimFloat.is_infinity u) eqn:Hinf; intros Heq; injection Heq as <-.
  - discriminate.
  - intros Hnan. split; [reflexivity|].
    apply not_nan_not_infinity_number; assumption.
Qed.

Section RollingFacts.

Variable K : accumulators.

Lemma roll_mean_length (minp w : nat) (values : Series) :
  length (roll_mean K minp w values) = length values.
Proof. unfold roll_mean. rewrite length_fmap, length_seq. reflexivity. Qed.

Lemma roll_var_length (minp w : nat) (values : Series) :
  length (roll_var K minp w values) = length values.
Proof. unfold roll_var. rewrite length_fmap, length_seq. reflexivity. Qed.

Lemma roll_count_length (w : nat) (values : Series) :
  length (roll_count w values) = length values.
Proof. unfold roll_count. rewrite length_fmap, length_seq. reflexivity. Qed.

Lemma rolling_mean_length (w : nat) (s : Series) :
  length (rolling_mean K w s) = length s.
Proof. unfold rolling_mean. rewrite roll_mean_length. apply prep_values_length. Qed.

Lemma rolling_var_length (w : nat) (s : Series) :
  length (rolling_var K w s) = length s.
Proof. unfold rolling_var. rewrite roll_var_length. apply prep_values_length. Qed.

Lemma rolling_std_length (w : nat) (s : Series) :
  length (rolling_std K w s) = length s.
Proof. unfold rolling_std. rewrite length_fmap. apply rolling_var_length. Qed.

Lemma roll_mean_at (minp w : nat) (values : Series) (t : nat) :
  (t < length values)%nat →
  at_label (roll_mean K minp w values) t
  = let nobs := length (valid (window_of w values t)) in
    if (minp <=? nobs)%nat && (0 <? nobs)%nat
    then acc_mean K w values t else nan.
Proof.
  intros Hlt. unfold roll_mean.
  apply (at_label_tabulate
           (λ t, let nobs := length (valid (window_of w values t)) in
                 if (minp <=? nobs)%nat && (0 <? nobs)%nat
                 then acc_mean K w values t else nan)).
  exact Hlt.
Qed.

Lemma roll_var_at (minp w : nat) (values : Series) (t : nat) :
  (t < length values)%nat →
  at_label (roll_var K minp w values) t
  = let nobs := length (valid (window_of w values t)) in
    if (minp `max` 1 <=? nobs)%nat && (1 <? nobs)%nat
    then acc_var K w values t else nan.
Proof.
  intros Hlt. unfold roll_var.
  apply (at_label_tabulate
           (λ t, let nobs := length (valid (window_of w values t)) in
                 if (minp `max` 1 <=? nobs)%nat && (1 <? nobs)%nat
                 then acc_var K w values t else nan)).
  exact Hlt.
Qed.

(** Too few observations: the mean is NaN. *)
Lemma roll_mean_nan (minp w : nat) (values : Series) (t : nat) :
  (length (valid (window_of w values t)) < minp)%nat
  ∨ length (valid (window_of w values t)) = 0%nat →
  at_label (roll_mean K minp w values) t = nan.
Proof.
  intros Hfew.
  destruct (decide (t < length values)%nat) as [Hlt | Hge].
  - rewrite roll_mean_at by exact Hlt. cbv zeta.
    destruct (minp <=? _)%nat eqn:Hminp; [|reflexivity].
    destruct (0 <? _)%nat eqn:Hpos; [|reflexivity].
    apply Nat.leb_le in Hminp. apply Nat.ltb_lt in Hpos. lia.
  - apply at_label_beyond. rewrite roll_mean_length. lia.
Qed.

Lemma roll_var_nan (minp w : nat) (values : Series) (t : nat) :
  (length (valid (window_of w values t)) < minp)%nat →
  at_label (roll_var K minp w values) t = nan.
Proof.
  intros Hfew.
  destruct (decide (t < length values)%nat) as [Hlt | Hge].
  - rewrite roll_var_at by exact Hlt. cbv zeta.
    destruct (minp `max` 1 <=? _)%nat eqn:Hminp; [|reflexivity].
    apply Nat.leb_le in Hminp. lia.
  - apply at_label_beyond. rewrite roll_var_length. lia.
Qed.

(** A variance that is not NaN had a full window of observations. *)
Lemma roll_var_observed (minp w : nat) (values : Series) (t : nat) :
  PrimFloat.is_nan (at_label (roll_var K minp w values) t) = false →
  (t < length values)%nat
  ∧ (minp ≤ length (valid (window_of w values t)))%nat.
Proof.
  intros Hnum.
  destruct (decide (t < length values)%nat) as [Hlt | Hge].
  - split; [exact Hlt|].
    destruct (decide (minp ≤ length (valid (window_of w values t)))%nat)
      as [Hle | Hfew]; [exact Hle|].
    rewrite roll_var_nan in Hnum by lia. discriminate.
  - rewrite at_label_beyond in Hnum by (rewrite roll_var_length; lia).
    discriminate.
Qed.

(** During the warm-up and wherever a value of the window is missing, the
    rolling mean is NaN. *)
Lemma rolling_mean_short (w : nat) (s : Series) (t : nat) :
  (t + 1 < w)%nat → at_label (rolling_mean K w s) t = nan.
Proof.
  intros Hw. unfold rolling_mean. apply roll_mean_nan. left.
  apply observations_short. exact Hw.
Qed.

Lemma rolling_var_short (w : nat) (s : Series) (t : nat) :
  (t + 1 < w)%nat → at_label (rolling_var K w s) t = nan.
Proof.
  intros Hw. unfold rolling_var. apply roll_var_nan.
  apply observations_short. exact Hw.
Qed.

Lemma rolling_mean_missing (w : nat) (s : Series) (t i : nat) :
  (t + 1 - w ≤ i ≤ t)%nat → s !! i = Some nan →
  at_label (rolling_mean K w s) t = nan.
Proof.
  intros Hi Hnan. unfold rolling_mean. apply roll_mean_nan. left.
  apply (observations_missing w (prep_values s) t i nan Hi);
    [apply prep_values_lookup_nan, Hnan | reflexivity].
Qed.

Lemma zsqrt_nan : zsqrt nan = nan.
Proof. reflexivity. Qed.

Lemma rolling_std_at (w : nat) (s : Series) (t : nat) :
  at_label (rolling_std K w s) t = zsqrt (at_label (rolling_var K w s) t).
Proof. unfold rolling_std. apply at_label_fmap. exact zsqrt_nan. Qed.

(** *** The z-score *)

Lemma rolling_of_nat (w : nat) : rolling (Z.of_nat w) = Returns w.
Proof.
  unfold rolling. destruct (Z.of_nat w <? 0) eqn:Hneg.
  - apply Z.ltb_lt in Hneg. lia.
  - rewrite Nat2Z.id. reflexivity.
Qed.

Lemma rolling_nonneg (window : Z) :
  0 ≤ window → rolling window = Returns (Z.to_nat window).
Proof.
  intros Hw. unfold rolling.
  destruct (window <? 0) eqn:Hneg; [apply Z.ltb_lt in Hneg; lia | reflexivity].
Qed.

Lemma rolling_negative (window : Z) :
  window < 0 → rolling window = Raises "ValueError".
Proof. intros Hw. unfold rolling. apply Z.ltb_lt in Hw. rewrite Hw. reflexivity. Qed.

(** The z-score series for a window [rolling] accepts. *)
Definition zscore_of (series : Series) (w : nat) : Series :=
  align_with PrimFloat.div
    (align_with PrimFloat.sub series (rolling_mean K w series))
    (rolling_std K w series).

Lemma compute_zscore_returns (series : Series) (w : nat) :
  compute_zscore K series (Z.of_nat w) = Returns (zscore_of series w).
Proof. unfold compute_zscore. rewrite rolling_of_nat. reflexivity. Qed.

Lemma zscore_of_length (series : Series) (w : nat) :
  length (zscore_of series w) = length series.
Proof.
  unfold zscore_of.
  rewrite !align_with_length, rolling_mean_length, rolling_std_length. lia.
Qed.

Lemma zscore_at (series : Series) (w t : nat) :
  (t < length series)%nat →
  zscore_of series w !! t
  = Some ((at_label series t - at_label (rolling_mean K w series) t)
          / at_label (rolling_std K w series) t)%float.
Proof.
  intros Hlt. unfold zscore_of.
  rewrite align_with_lookup
    by (rewrite align_with_length, rolling_mean_length, rolling_std_length; lia).
  rewrite align_with_at by (rewrite rolling_mean_length; lia).
  reflexivity.
Qed.

Lemma zscore_short_at (series : Series) (w t : nat) :
  (t < w - 1)%nat → (t < length series)%nat →
  zscore_of series w !! t = Some nan.
Proof.
  intros Hw Hlt. rewrite zscore_at by exact Hlt.
  rewrite rolling_mean_short by lia.
  rewrite sub_nan_r, div_nan_l. reflexivity.
Qed.

Lemma zscore_missing_at (series : Series) (w t i : nat) :
  (t < length series)%nat → (t + 1 - w ≤ i ≤ t)%nat →
  series !! i = Some nan →
  zscore_of series w !! t = Some nan.
Proof.
  intros Hlt Hi Hnan. rewrite zscore_at by exact Hlt.
  rewrite (rolling_mean_missing w series t i Hi Hnan).
  rewrite sub_nan_r, div_nan_l. reflexivity.
Qed.

(** A standard deviation that is not NaN at [w - 1] had [w] finite
    observations, the value at [w - 1] among them. *)
Lemma rolling_std_observed (series : Series) (w : nat) :
  (1 ≤ w)%nat →
  PrimFloat.is_nan (at_label (rolling_std K w series) (w - 1)) = false →
  (w - 1 < length series)%nat ∧ number (at_label series (w - 1)).
Proof.
  intros Hw Hnum. rewrite rolling_std_at in Hnum.
  assert (Hvar : PrimFloat.is_nan (at_label (rolling_var K w series) (w - 1))
                 = false).
  { destruct (PrimFloat.is_nan (at_label (rolling_var K w series) (w - 1)))
      eqn:Hv; [|reflexivity].
    apply is_nan_eq in Hv. rewrite Hv, zsqrt_nan in Hnum. discriminate. }
  unfold rolling_var in Hvar.
  apply roll_var_observed in Hvar as [Hlt Hobs].
  rewrite prep_values_length in Hlt. split; [exact Hlt|].
  set (win := window_of w (prep_values series) (w - 1)) in *.
  assert (Hlen : length win = w).
  { unfold win. rewrite window_of_length by (rewrite prep_values_length; exact Hlt).
    lia. }
  pose proof (valid_length_le win) as Hle.
  assert (Hfull : valid win = win) by (apply valid_full; lia).
  pose proof (valid_no_nan win) as Hall. rewrite Hfull in Hall.
  assert (Hlast : win !! (w - 1)%nat = prep_values series !! (w - 1)%nat).
  { unfold win.
    rewrite <- (window_of_lookup w (prep_values series) (w - 1) (w - 1)) by lia.
    f_equal. lia. }
  rewrite (lookup_at_label (prep_values series))
    in Hlast by (rewrite prep_values_length; exact Hlt).
  pose proof (Forall_lookup_1 _ _ _ _ Hall Hlast) as Hx. simpl in Hx.
  rewrite (lookup_at_label win) in Hlast by lia.
  destruct (prep_values_number series (w - 1)
              (at_label (prep_values series) (w - 1))) as [Hs Hn].
  - apply lookup_at_label. rewrite prep_values_length. exact Hlt.
  - exact Hx.
  - rewrite (at_label_lookup _ _ _ Hs). exact Hn.
Qed.

End RollingFacts.

(** C7, as the code behaves. For a window [w >= 2], [compute_zscore] returns
    a series over the index of its input whose first [w - 1] values are NaN;
    its [w]-th value is not NaN provided the rolling mean and the rolling
    standard deviation there are finite and the standard deviation is not
    zero. *)
Theorem compute_zscore_warm_up (K : accumulators) (series : Series) (w : nat) :
  (2 ≤ w)%nat →
  ∃ z : Series,
    compute_zscore K series (Z.of_nat w) = Returns z
    ∧ length z = length series
    ∧ (∀ t : nat, (t < w - 1)%nat → (t < length series)%nat → z !! t = Some nan)
    ∧ (∀ m sd : float,
         rolling_mean K w series !! (w - 1)%nat = Some m →
         rolling_std K w series !! (w - 1)%nat = Some sd →
         PrimFloat.is_finite m = true →
         PrimFloat.is_finite sd = true → PrimFloat.is_zero sd = false →
         ∃ v : float,
           z !! (w - 1)%nat = Some v ∧ PrimFloat.is_nan v = false).
Proof.
  intros Hw. eexists. split; [apply compute_zscore_returns|].
  split; [apply zscore_of_length|]. split.
  - intros t Ht Hlt. apply zscore_short_at; assumption.
  - intros m sd Hm Hsd Hmfin Hsdfin Hnz.
    apply at_label_lookup in Hm, Hsd.
    pose proof (is_finite_number _ Hmfin) as Hmnum.
    pose proof (is_finite_number _ Hsdfin) as Hsdnum.
    assert (Hsdnan : PrimFloat.is_nan sd = false).
    { unfold PrimFloat.is_finite in Hsdfin.
      apply negb_true_iff, orb_false_iff in Hsdfin as [H _]. exact H. }
    destruct (rolling_std_observed K series w) as [Hlt Hx];
      [lia | rewrite Hsd; exact Hsdnan |].
    eexists. split.
    + rewrite zscore_at by exact Hlt. rewrite Hm, Hsd. reflexivity.
    + apply div_number_not_nan; [|exact Hsdnum | exact Hnz].
      apply sub_number_not_nan; assumption.
Qed.

(** Window 2 over [1; 3; 5]: the first z-score is NaN, the second is not (the
    mean of [1; 3] is 2 and its standard deviation the square root of 2). *)
Lemma compute_zscore_warm_up_witness :
  ∃ z : Series,
    compute_zscore from_scratch [1; 3; 5]%float 2 = Returns z
    ∧ z !! 0%nat = Some nan
    ∧ ∃ v : float, z !! 1%nat = Some v ∧ PrimFloat.is_nan v = false.
Proof.
  destruct (compute_zscore_warm_up from_scratch [1; 3; 5]%float 2%nat)
    as (z & Hz & _ & Hwarm & Hdef).
  - lia.
  - exists z. split; [exact Hz|]. split.
    + apply Hwarm; simpl; lia.
    + apply (Hdef 2%float (PrimFloat.sqrt 2)); reflexivity.
Defined.

(** C7, as stated, fails: over [1e308; 1.5e308] with window 2 the rolling
    standard deviation at the second point is not zero (the sum of squares
    overflows to infinity, and so does the sum behind the mean), and the
    second z-score is NaN. *)
Lemma compute_zscore_overflow :
  rolling_std from_scratch 2 [1e308; 1.5e308]%float = [nan; infinity]
  ∧ PrimFloat.is_zero infinity = false
  ∧ compute_zscore from_scratch [1e308; 1.5e308]%float 2 = Returns [nan; nan].
Proof. vm_compute. repeat split; reflexivity. Qed.

(** *** The dynamic hedge ratio *)

Section DynamicBeta.

Variable K : accumulators.

Lemma rolling_cov_length (r : nat) (x y : Series) :
  length (rolling_cov K r x y) = (length x `max` length y)%nat.
Proof.
  unfold rolling_cov.
  repeat first [ rewrite align_with_length | rewrite length_fmap
               | rewrite roll_mean_length | rewrite roll_count_length
               | rewrite prep_values_length ].
  lia.
Qed.

(** The hedge ratio series for a window [rolling] accepts. *)
Definition beta_of (x y : Series) (w : nat) : Series :=
  align_with PrimFloat.div (rolling_cov K w x y) (rolling_var K w y).

Lemma compute_dynamic_beta_returns (x y : Series) (window : Z) :
  0 ≤ window →
  compute_dynamic_beta K x y window = Returns (beta_of x y (Z.to_nat window)).
Proof.
  intros Hw. unfold compute_dynamic_beta.
  rewrite rolling_nonneg by exact Hw. reflexivity.
Qed.

Lemma compute_dynamic_beta_of_nat (x y : Series) (w : nat) :
  compute_dynamic_beta K x y (Z.of_nat w) = Returns (beta_of x y w).
Proof.
  rewrite compute_dynamic_beta_returns by lia. rewrite Nat2Z.id. reflexivity.
Qed.

Lemma beta_of_length (x y : Series) (w : nat) :
  length (beta_of x y w) = (length x `max` length y)%nat.
Proof.
  unfold beta_of.
  rewrite align_with_length, rolling_cov_length, rolling_var_length. lia.
Qed.

Lemma dynamic_beta_at (x y : Series) (w t : nat) :
  (t < length x `max` length y)%nat →
  beta_of x y w !! t
  = Some (at_label (rolling_cov K w x y) t / at_label (rolling_var K w y) t)%float.
Proof.
  intros Hlt. unfold beta_of. apply align_with_lookup.
  rewrite rolling_cov_length, rolling_var_length. lia.
Qed.

End DynamicBeta.

(** C6, as the code behaves. [compute_dynamic_beta] never raises a division
    error; with a window that [rolling] accepts it returns a series, and at
    every index where the rolling variance of [y] is zero the beta is the
    rolling covariance divided by that zero: NaN when the covariance there is
    NaN or zero, and an infinity when it is anything else. *)
Theorem compute_dynamic_beta_zero_variance (K : accumulators) (x y : Series)
    (window : Z) :
  compute_dynamic_beta K x y window ≠ Raises "ZeroDivisionError"
  ∧ (0 ≤ window →
     ∃ beta : Series,
       compute_dynamic_beta K x y window = Returns beta
       ∧ ∀ (t : nat) (v c : float),
           rolling_var K (Z.to_nat window) y !! t = Some v →
           PrimFloat.is_zero v = true →
           rolling_cov K (Z.to_nat window) x y !! t = Some c →
           beta !! t = Some (c / v)%float
           ∧ (PrimFloat.is_nan c || PrimFloat.is_zero c = true →
              beta !! t = Some nan)
           ∧ (PrimFloat.is_nan c = false → PrimFloat.is_zero c = false →
              beta !! t = Some infinity ∨ beta !! t = Some neg_infinity)).
Proof.
  split.
  - destruct (Z.lt_ge_cases window 0) as [Hneg | Hpos].
    + unfold compute_dynamic_beta. rewrite rolling_negative by exact Hneg.
      discriminate.
    + rewrite compute_dynamic_beta_returns by exact Hpos. discriminate.
  - intros Hw. eexists. split; [apply compute_dynamic_beta_returns, Hw|].
    intros t v c Hv Hzero Hc.
    assert (Ht : (t < length x `max` length y)%nat).
    { apply lookup_lt_Some in Hc. rewrite rolling_cov_length in Hc. exact Hc. }
    rewrite dynamic_beta_at by exact Ht.
    rewrite (at_label_lookup _ _ _ Hv), (at_label_lookup _ _ _ Hc).
    destruct (div_by_zero c v Hzero) as [Hnan Hinf].
    split; [reflexivity|]. split.
    + intros Hc0. rewrite Hnan by exact Hc0. reflexivity.
    + intros Hc1 Hc2. destruct (Hinf Hc1 Hc2) as [-> | ->]; [left | right];
        reflexivity.
Qed.

(** [y = 5; 5; 7] with window 2: at index 1 the rolling variance and the
    rolling covariance are both zero, and the beta is NaN. *)
Lemma compute_dynamic_beta_zero_variance_witness :
  ∃ beta : Series,
    compute_dynamic_beta from_scratch [1; 2; 4]%float [5; 5; 7]%float 2
    = Returns beta
    ∧ beta !! 1%nat = Some nan.
Proof.
  destruct (proj2 (compute_dynamic_beta_zero_variance from_scratch
                     [1; 2; 4]%float [5; 5; 7]%float 2))
    as (beta & Hbeta & Hat).
  - lia.
  - exists beta. split; [exact Hbeta|].
    destruct (Hat 1%nat 0%float 0%float) as (_ & Hnan & _);
      [reflexivity | reflexivity | reflexivity |].
    apply Hnan. reflexivity.
Defined.

(** C6, as stated, fails: for [x = 0.1; 0.3] and [y = 0.1; 0.1] with window 2
    the rolling variance of [y] at index 1 is zero, the rolling covariance is
    a rounding residue below zero, and the beta is minus infinity, not
    NaN. *)
Lemma compute_dynamic_beta_residue_over_zero :
  rolling_var from_scratch 2 [0.1; 0.1]%float = [nan; 0%float]
  ∧ rolling_cov from_scratch 2 [0.1; 0.3]%float [0.1; 0.1]%float
    = [nan; (-0x1p-57)%float]
  ∧ compute_dynamic_beta from_scratch [0.1; 0.3]%float [0.1; 0.1]%float 2
    = Returns [nan; neg_infinity].
Proof. vm_compute. repeat split; reflexivity. Qed.

(** ** Validation and errors *)

(** *** Thresholds and window *)

Lemma transition_range (entry exit stop : fval) (prev : Z) (z : fval) :
  (prev = -1 ∨ prev = 0 ∨ prev = 1) →
  transition entry exit stop prev z = -1
  ∨ transition entry exit stop prev z = 0
  ∨ transition entry exit stop prev z = 1.
Proof.
  intros Hprev. unfold transition.
  repeat case_match; lia.
Qed.

Lemma strategy_range {TB TS : Type}
    (zs : list fval) (betas : TB) (spreads : TS) (entry exit stop : fval) :
  Forall (λ v, v = -1 ∨ v = 0 ∨ v = 1) (strategy zs betas spreads entry exit stop).
Proof.
  apply Forall_lookup. intros t.
  induction t as [|t IH]; intros v Hv.
  - assert (Hlt : (0 < length zs)%nat).
    { apply lookup_lt_Some in Hv. rewrite strategy_length in Hv. exact Hv. }
    rewrite strategy_first in Hv by exact Hlt. inversion Hv. lia.
  - assert (Hlt : (S t < length zs)%nat).
    { apply lookup_lt_Some in Hv. rewrite strategy_length in Hv. exact Hv. }
    destruct (lookup_lt_is_Some_2 zs (S t) Hlt) as [z Hz].
    destruct (strategy_lookup_prev zs betas spreads entry exit stop (S t) Hlt)
      as [prev Hprev].
    rewrite (strategy_lookup_step zs betas spreads entry exit stop (S t) z prev)
      in Hv by (lia || assumption).
    inversion Hv. apply transition_range. apply IH.
    replace (S t - 1)%nat with t in Hprev by lia. exact Hprev.
Qed.

Lemma compute_zscore_raises (K : accumulators) (series : Series) (window : Z)
    (e : string) :
  compute_zscore K series window = Raises e ↔ rolling window = Raises e.
Proof.
  unfold compute_zscore. destruct (rolling window) as [r | e']; simpl.
  - split; discriminate.
  - split; intros Heq; inversion Heq; reflexivity.
Qed.

Lemma compute_dynamic_beta_raises (K : accumulators) (x y : Series)
    (window : Z) (e : string) :
  compute_dynamic_beta K x y window = Raises e ↔ rolling window = Raises e.
Proof.
  unfold compute_dynamic_beta. destruct (rolling window) as [r | e']; simpl.
  - split; discriminate.
  - split; intros Heq; inversion Heq; reflexivity.
Qed.

Lemma rolling_raises (window : Z) (e : string) :
  rolling window = Raises e → window < 0 ∧ e = "ValueError".
Proof.
  unfold rolling. destruct (window <? 0) eqn:Hneg; [|discriminate].
  apply Z.ltb_lt in Hneg. intros Heq. inversion Heq. split; [exact Hneg | reflexivity].
Qed.

(** C3, as the code behaves. Nothing validates the configuration.  [strategy]
    accepts any thresholds, in whatever order: it returns a position series
    over the index of the z-scores, with values among -1, 0 and +1.  The
    analytics functions do not check the window themselves: [compute_zscore]
    and [compute_dynamic_beta] raise exactly when [rolling] rejects the
    window, with its exception, which is a ValueError for a negative window
    (0 is accepted) and never a ConfigurationError. *)
Theorem no_configuration_validation {TB TS : Type}
    (zs : list fval) (betas : TB) (spreads : TS) (entry exit stop : fval)
    (K : accumulators) (x y : Series) (window : Z) :
  (length (strategy zs betas spreads entry exit stop) = length zs
   ∧ Forall (λ v, v = -1 ∨ v = 0 ∨ v = 1)
            (strategy zs betas spreads entry exit stop))
  ∧ (∀ e : string,
       (compute_zscore K x window = Raises e ↔ rolling window = Raises e)
       ∧ (compute_dynamic_beta K x y window = Raises e ↔ rolling window = Raises e)
       ∧ (rolling window = Raises e → window < 0 ∧ e = "ValueError")).
Proof.
  split.
  - split; [apply strategy_length | apply strategy_range].
  - intros e. split; [apply compute_zscore_raises|].
    split; [apply compute_dynamic_beta_raises | apply rolling_raises].
Qed.

(** With window -1 the z-score fails with the ValueError of [rolling]. *)
Lemma no_configuration_validation_witness :
  compute_zscore from_scratch [1; 2]%float (-1) = Raises "ValueError".
Proof.
  destruct (no_configuration_validation [NaN; Fin 3] tt tt (Fin 1) (Fin 2)
              (Fin (1 # 2)) from_scratch [1; 2]%float [1; 2]%float (-1))
    as [_ H].
  destruct (H "ValueError") as [[_ Hz] _].
  apply Hz. reflexivity.
Defined.

(** C3, as stated, fails: with exit 2 > entry 1 > stop 0.5 [strategy] returns
    positions, and with window 0 [compute_zscore] returns a series (all
    NaN). *)
Lemma misordered_thresholds_accepted :
  (fltb (Fin 2) (Fin 1) = false ∧ fltb (Fin 1) (Fin (1 # 2)) = false)
  ∧ strategy [NaN; Fin 3; Fin 1] tt tt (Fin 1) (Fin 2) (Fin (1 # 2)) = [0; -1; 0]
  ∧ compute_zscore from_scratch [1; 2]%float 0 = Returns [nan; nan].
Proof. vm_compute. repeat split; reflexivity. Qed.

(** *** Alignment of the two series *)

Lemma getitem_raises (df : DataFrame) (name e : string) :
  getitem df name = Raises e → e = "KeyError".
Proof.
  unfold getitem. destruct (position name (df_columns df)); [discriminate|].
  intros Heq. inversion Heq. reflexivity.
Qed.

(** A column has one value per row of the frame. *)
Lemma getitem_length (df : DataFrame) (name : string) (col : Series) :
  getitem df name = Returns col → length col = length (df_rows df).
Proof.
  unfold getitem. destruct (position name (df_columns df)); [|discriminate].
  intros Heq. injection Heq as <-. apply length_fmap.
Qed.

(** The hedge ratio that applies at a label: the float itself, or the value
    of the series there (NaN where it has no such label). *)
Definition hedge_at (beta : hedge) (t : nat) : float :=
  match beta with
  | Static b => b
  | Dynamic bs => at_label bs t
  end.

Lemma scale_at (beta : hedge) (y : Series) (t : nat) :
  at_label (scale beta y) t = (hedge_at beta t * at_label y t)%float.
Proof.
  destruct beta as [b | bs]; simpl.
  - apply (at_label_fmap (PrimFloat.mul b)). apply mul_nan_r.
  - destruct (decide (t < length bs `max` length y)%nat) as [Hin | Hout].
    + apply align_with_at. exact Hin.
    + rewrite at_label_beyond by (rewrite align_with_length; lia).
      rewrite (at_label_beyond y) by lia. rewrite mul_nan_r. reflexivity.
Qed.

Lemma scale_length (beta : hedge) (y : Series) :
  (length y ≤ length (scale beta y))%nat.
Proof.
  destruct beta as [b | bs]; simpl;
    rewrite ?length_fmap, ?align_with_length; lia.
Qed.

Lemma compute_spread_at (x y : Series) (beta : hedge) (t : nat) :
  (t < length (compute_spread x y beta))%nat →
  compute_spread x y beta !! t
  = Some (at_label x t - hedge_at beta t * at_label y t)%float.
Proof.
  unfold compute_spread. intros Hlt.
  rewrite align_with_length in Hlt.
  rewrite align_with_lookup by exact Hlt. rewrite scale_at. reflexivity.
Qed.



(** [x] as the covariance sees it: masked by [y] and prepared. *)
Definition cov_x_array (x y : Series) : Series :=
  prep_values (align_with PrimFloat.add x (PrimFloat.mul 0 <$> y)).

Lemma cov_x_array_length (x y : Series) :
  length (cov_x_array x y) = (length x `max` length y)%nat.
Proof.
  unfold cov_x_array.
  rewrite prep_values_length, align_with_length, length_fmap. reflexivity.
Qed.

(** Where [x] is NaN or lacks the label, so is the masked array. *)
Lemma cov_x_array_nan (x y : Series) (i : nat) :
  (i < length x `max` length y)%nat → at_label x i = nan →
  cov_x_array x y !! i = Some nan.
Proof.
  intros Hlt Hx. unfold cov_x_array. apply prep_values_lookup_nan.
  rewrite align_with_lookup by (rewrite length_fmap; exact Hlt).
  rewrite Hx, add_nan_l. reflexivity.
Qed.

(** The covariance is NaN where the rolling mean of [x] is. *)
Lemma rolling_cov_mean_x_nan (K : accumulators) (w : nat) (x y : Series)
    (t : nat) :
  (t < length x `max` length y)%nat →
  at_label (roll_mean K w w (cov_x_array x y)) t = nan →
  at_label (rolling_cov K w x y) t = nan.
Proof.
  intros Hlt Hmean. unfold rolling_cov. cbv zeta.
  fold (cov_x_array x y).
  rewrite align_with_at.
  - rewrite (align_with_at PrimFloat.sub).
    + rewrite (align_with_at PrimFloat.mul (roll_mean K w w _)).
      * rewrite Hmean.
        rewrite mul_nan_l, sub_nan_r, mul_nan_l. reflexivity.
      * repeat first [ rewrite cov_x_array_length
                     | rewrite align_with_length | rewrite length_fmap
                     | rewrite roll_mean_length | rewrite prep_values_length ].
        lia.
    + repeat first [ rewrite cov_x_array_length
                   | rewrite align_with_length | rewrite length_fmap
                   | rewrite roll_mean_length | rewrite prep_values_length ].
      lia.
  - repeat first [ rewrite cov_x_array_length
                 | rewrite align_with_length | rewrite length_fmap
                 | rewrite roll_mean_length | rewrite roll_count_length
                 | rewrite prep_values_length ].
    lia.
Qed.



Section PipelineErrors.

Variable K : accumulators.
Variable ols_slope : Series → Series → outcome float.
Variable adfuller_pvalue : Series → outcome float.




End PipelineErrors.





(** ** Further properties of the state machine *)

(** *** No signal, no trade *)

(** X1. As long as no z-score from index 1 to [t] is above the entry
    threshold or below its negation (zero, small or undefined z-scores), the
    position at [t] is FLAT. *)
Theorem strategy_flat_without_entry {TB TS : Type}
    (zs : list fval) (betas : TB) (spreads : TS) (entry exit stop : fval)
    (t : nat) :
  (t < length zs)%nat →
  (∀ (s : nat) (z : fval),
     (1 ≤ s ≤ t)%nat → zs !! s = Some z →
     fgtb z entry = false ∧ fltb z (fneg entry) = false) →
  strategy zs betas spreads entry exit stop !! t = Some 0.
Proof.
  induction t as [|t IH]; intros Hlt Hquiet.
  - apply strategy_first. exact Hlt.
  - destruct (lookup_lt_is_Some_2 zs (S t) Hlt) as [z Hz].
    destruct (Hquiet (S t) z) as [Hgt Hlt']; [lia | exact Hz |].
    rewrite (strategy_lookup_step zs betas spreads entry exit stop (S t) z 0).
    + unfold transition. simpl. rewrite Hgt, Hlt'. reflexivity.
    + lia.
    + exact Hz.
    + replace (S t - 1)%nat with t by lia. apply IH; [lia|].
      intros s z' Hs Hz'. apply (Hquiet s z'); [lia | exact Hz'].
Qed.

(** All z-scores zero: FLAT at index 2. *)
Lemma strategy_flat_without_entry_witness :
  strategy [Fin 0; Fin 0; Fin 0] tt tt default_entry default_exit default_stop
    !! 2%nat = Some 0.
Proof.
  apply (strategy_flat_without_entry [Fin 0; Fin 0; Fin 0] tt tt
           default_entry default_exit default_stop 2%nat).
  - simpl. lia.
  - intros s z Hs Hz.
    assert (Hcases : s = 1%nat ∨ s = 2%nat) by lia.
    destruct Hcases as [-> | ->]; inversion Hz; split; reflexivity.
Defined.

(** *** Causality *)

(** X2. The position at [t] depends on the z-scores at the indices 1 to [t]
    only: two z-score series that agree there give the same position at [t],
    whatever they hold at index 0 and after [t]. *)
Theorem strategy_causal {TB TS : Type}
    (zs zs' : list fval) (betas : TB) (spreads : TS) (entry exit stop : fval)
    (t : nat) :
  (t < length zs)%nat → (t < length zs')%nat →
  (∀ s : nat, (1 ≤ s ≤ t)%nat → zs !! s = zs' !! s) →
  strategy zs betas spreads entry exit stop !! t
  = strategy zs' betas spreads entry exit stop !! t.
Proof.
  induction t as [|t IH]; intros Hlt Hlt' Hagree.
  - rewrite !strategy_first by assumption. reflexivity.
  - destruct (lookup_lt_is_Some_2 zs (S t) Hlt) as [z Hz].
    assert (Hz' : zs' !! S t = Some z) by (rewrite <- Hagree by lia; exact Hz).
    destruct (strategy_lookup_prev zs betas spreads entry exit stop (S t) Hlt)
      as [prev Hprev].
    assert (Hprev' : strategy zs' betas spreads entry exit stop !! (S t - 1)%nat
                     = Some prev).
    { rewrite <- Hprev. replace (S t - 1)%nat with t by lia.
      symmetry. apply IH; [lia | lia |]. intros s Hs. apply Hagree. lia. }
    rewrite (strategy_lookup_step zs betas spreads entry exit stop (S t) z prev)
      by (lia || assumption).
    rewrite (strategy_lookup_step zs' betas spreads entry exit stop (S t) z prev)
      by (lia || assumption).
    reflexivity.
Qed.

(** Another value at index 0 and one more z-score at the end do not change the
    position at index 1. *)
Lemma strategy_causal_witness :
  strategy [NaN; Fin 3] tt tt default_entry default_exit default_stop !! 1%nat
  = strategy [Fin 9; Fin 3; Fin 0] tt tt default_entry default_exit default_stop
      !! 1%nat.
Proof.
  apply (strategy_causal [NaN; Fin 3] [Fin 9; Fin 3; Fin 0] tt tt
           default_entry default_exit default_stop 1%nat).
  - simpl. lia.
  - simpl. lia.
  - intros s Hs. assert (s = 1%nat) as -> by lia. reflexivity.
Defined.

(** X3. One more z-score only appends one position: on a non-empty series,
    the positions of [zs ++ [z]] are the positions of [zs] followed by the
    transition of the last of them on [z]. *)
Theorem strategy_snoc {TB TS : Type}
    (zs : list fval) (z : fval) (betas : TB) (spreads : TS)
    (entry exit stop : fval) :
  zs ≠ [] →
  strategy (zs ++ [z]) betas spreads entry exit stop
  = strategy zs betas spreads entry exit stop
    ++ [transition entry exit stop
          (iloc 0 (strategy zs betas spreads entry exit stop) (length zs - 1))
          z].
Proof.
  intros Hne.
  assert (Hpos : (0 < length zs)%nat) by (destruct zs; [contradiction | simpl; lia]).
  set (p := strategy zs betas spreads entry exit stop).
  assert (Hp : length p = length zs) by apply strategy_length.
  apply list_eq. intros i.
  destruct (decide (i < length zs)%nat) as [Hi | Hi].
  - rewrite lookup_app_l by (rewrite Hp; exact Hi).
    apply strategy_causal; [rewrite length_app; simpl; lia | exact Hi |].
    intros s Hs. apply lookup_app_l. lia.
  - destruct (decide (i = length zs)) as [-> | Hgt].
    + rewrite lookup_app_r by (rewrite Hp; lia).
      rewrite Hp, Nat.sub_diag. simpl.
      destruct (lookup_lt_is_Some_2 p (length zs - 1)) as [prev Hprev];
        [rewrite Hp; lia|].
      unfold iloc. rewrite Hprev. simpl.
      apply strategy_lookup_step.
      * lia.
      * rewrite lookup_app_r by lia. rewrite Nat.sub_diag. reflexivity.
      * rewrite <- Hprev. unfold p.
        apply strategy_causal; [rewrite length_app; simpl; lia | lia |].
        intros s Hs. apply lookup_app_l. lia.
    + rewrite !lookup_ge_None_2; [reflexivity | |].
      * rewrite length_app, Hp. simpl. lia.
      * rewrite strategy_length, length_app. simpl. lia.
Qed.

(** Appending 0.3 to [undefined; 3] exits the short trade. *)
Lemma strategy_snoc_witness :
  strategy ([NaN; Fin 3] ++ [Fin (3 # 10)]) tt tt
           default_entry default_exit default_stop
  = strategy [NaN; Fin 3] tt tt default_entry default_exit default_stop
    ++ [transition default_entry default_exit default_stop
          (iloc 0 (strategy [NaN; Fin 3] tt tt
                     default_entry default_exit default_stop) (2 - 1))
          (Fin (3 # 10))].
Proof.
  apply (strategy_snoc [NaN; Fin 3] (Fin (3 # 10)) tt tt
           default_entry default_exit default_stop).
  discriminate.
Defined.

(** *** Long and short are mirror images *)

Lemma Qle_bool_opp (x y : Q) : Qle_bool (- y) (- x) = Qle_bool x y.
Proof.
  apply Bool.eq_iff_eq_true. rewrite !Qle_bool_iff. split; intros H; lra.
Qed.

Lemma fltb_fneg (a b : fval) : fltb (fneg a) (fneg b) = fltb b a.
Proof.
  destruct a as [| | |x], b as [| | |y]; simpl; try reflexivity.
  unfold Qltb. rewrite Qle_bool_opp. reflexivity.
Qed.

Lemma fltb_fneg_swap (a b : fval) : fltb a (fneg b) = fltb b (fneg a).
Proof.
  destruct a as [| | |x], b as [| | |y]; simpl; try reflexivity.
  unfold Qltb. f_equal.
  apply Bool.eq_iff_eq_true. rewrite !Qle_bool_iff. split; intros H; lra.
Qed.

Lemma fabs_fneg (z : fval) : fabs (fneg z) = fabs z.
Proof.
  destruct z as [| | |[n d]]; simpl; try reflexivity.
  rewrite Z.abs_opp. reflexivity.
Qed.

(** Both entry signals at once need a negative entry threshold. *)
Lemma both_entries_negative (entry z : fval) :
  fltb entry z = true → fltb z (fneg entry) = true → fltb entry (Fin 0) = true.
Proof.
  destruct entry as [| | |e], z as [| | |q]; simpl; try congruence.
  intros H1 H2.
  apply (proj1 (fltb_Fin e q)) in H1. apply (proj1 (fltb_Fin q (- e))) in H2.
  apply (proj2 (fltb_Fin e 0)). lra.
Qed.

Lemma transition_mirror (entry exit stop : fval) (prev : Z) (z : fval) :
  fltb entry (Fin 0) = false →
  transition entry exit stop (- prev) (fneg z)
  = - transition entry exit stop prev z.
Proof.
  intros Hentry. unfold transition, fgtb.
  rewrite fabs_fneg, fltb_fneg, (fltb_fneg_swap entry z).
  destruct (Z.eqb_spec prev 0) as [-> | Hne].
  - simpl.
    destruct (fltb entry z) eqn:Hshort, (fltb z (fneg entry)) eqn:Hlong;
      try reflexivity.
    rewrite (both_entries_negative entry z Hshort Hlong) in Hentry.
    discriminate.
  - destruct (Z.eqb_spec (- prev) 0) as [Hz | _]; [lia|].
    destruct (fltb (fabs z) exit); [reflexivity|].
    destruct (fltb stop (fabs z)); reflexivity.
Qed.

(** X4. With an entry threshold that is not negative, long and short are
    mirror images: on the negated z-scores [strategy] returns the negated
    positions. *)
Theorem strategy_mirror {TB TS : Type}
    (zs : list fval) (betas : TB) (spreads : TS) (entry exit stop : fval) :
  fltb entry (Fin 0) = false →
  strategy (fneg <$> zs) betas spreads entry exit stop
  = Z.opp <$> strategy zs betas spreads entry exit stop.
Proof.
  intros Hentry. apply list_eq. intros t.
  destruct (decide (t < length zs)%nat) as [Hlt | Hge].
  - induction t as [|t IH].
    + rewrite list_lookup_fmap, !strategy_first
        by (rewrite ?length_fmap; exact Hlt).
      reflexivity.
    + destruct (lookup_lt_is_Some_2 zs (S t) Hlt) as [z Hz].
      destruct (strategy_lookup_prev zs betas spreads entry exit stop (S t) Hlt)
        as [prev Hprev].
      replace (S t - 1)%nat with t in Hprev by lia.
      rewrite list_lookup_fmap.
      rewrite (strategy_lookup_step zs betas spreads entry exit stop (S t) z prev);
        [| lia | exact Hz | replace (S t - 1)%nat with t by lia; exact Hprev].
      rewrite (strategy_lookup_step (fneg <$> zs) betas spreads entry exit stop
                 (S t) (fneg z) (- prev)).
      * simpl. rewrite transition_mirror by exact Hentry. reflexivity.
      * lia.
      * rewrite list_lookup_fmap, Hz. reflexivity.
      * replace (S t - 1)%nat with t by lia.
        rewrite IH by lia. rewrite list_lookup_fmap, Hprev. reflexivity.
  - rewrite !lookup_ge_None_2; [reflexivity | |].
    + rewrite length_fmap, strategy_length. lia.
    + rewrite strategy_length, length_fmap. lia.
Qed.

(** The mirrored first scenario enters long where the original enters short. *)
Lemma strategy_mirror_witness :
  strategy (fneg <$> scenario_z) tt tt default_entry default_exit default_stop
  = Z.opp <$> strategy scenario_z tt tt default_entry default_exit default_stop.
Proof.
  apply (strategy_mirror scenario_z tt tt default_entry default_exit default_stop).
  reflexivity.
Defined.

(** *** Where a trade comes from *)

(** X5. A position other than FLAT at [t] was opened from FLAT at some step
    [t0 <= t] and held since: a short one by a z-score above the entry
    threshold, a long one by a z-score below its negation (and not above the
    threshold). *)
Theorem strategy_trade_origin {TB TS : Type}
    (zs : list fval) (betas : TB) (spreads : TS) (entry exit stop : fval)
    (t : nat) (v : Z) :
  strategy zs betas spreads entry exit stop !! t = Some v → v ≠ 0 →
  ∃ (t0 : nat) (z0 : fval),
    (1 ≤ t0 ≤ t)%nat
    ∧ zs !! t0 = Some z0
    ∧ strategy zs betas spreads entry exit stop !! (t0 - 1)%nat = Some 0
    ∧ (∀ s : nat, (t0 ≤ s ≤ t)%nat →
         strategy zs betas spreads entry exit stop !! s = Some v)
    ∧ (v = -1 → fgtb z0 entry = true)
    ∧ (v = 1 → fgtb z0 entry = false ∧ fltb z0 (fneg entry) = true).
Proof.
  set (p := strategy zs betas spreads entry exit stop).
  revert v. induction t as [|t IH]; intros v Hv Hne.
  - assert (Hlt : (0 < length zs)%nat).
    { apply lookup_lt_Some in Hv. unfold p in Hv.
      rewrite strategy_length in Hv. exact Hv. }
    unfold p in Hv. rewrite strategy_first in Hv by exact Hlt.
    inversion Hv. congruence.
  - assert (Hlt : (S t < length zs)%nat).
    { apply lookup_lt_Some in Hv. unfold p in Hv.
      rewrite strategy_length in Hv. exact Hv. }
    destruct (lookup_lt_is_Some_2 zs (S t) Hlt) as [z Hz].
    destruct (strategy_lookup_prev zs betas spreads entry exit stop (S t) Hlt)
      as [prev Hprev].
    fold p in Hprev.
    pose proof (strategy_lookup_step zs betas spreads entry exit stop
                  (S t) z prev) as Hstep.
    fold p in Hstep. rewrite Hstep in Hv by (lia || assumption).
    injection Hv as Hval. clear Hstep.
    replace (S t - 1)%nat with t in Hprev by lia.
    destruct (Z.eq_dec prev 0) as [-> | Hprev0].
    + (* opened at this step *)
      exists (S t), z.
      split; [lia|]. split; [exact Hz|].
      split; [replace (S t - 1)%nat with t by lia; exact Hprev|].
      split.
      { intros s Hs. assert (s = S t) as -> by lia. unfold p.
        rewrite (strategy_lookup_step zs betas spreads entry exit stop
                   (S t) z 0); [rewrite Hval; reflexivity | lia | exact Hz |].
        replace (S t - 1)%nat with t by lia. exact Hprev. }
      unfold transition in Hval. simpl in Hval.
      destruct (fgtb z entry);
        [split; [reflexivity | intros Hv1; exfalso; lia]|].
      destruct (fltb z (fneg entry));
        [split; [intros Hv1; exfalso; lia | intros _; split; reflexivity]|].
      exfalso. lia.
    + (* held from the step before *)
      destruct (transition_in_trade entry exit stop prev z Hprev0) as [Hk | Hk];
        rewrite Hk in Hval; [|congruence].
      subst prev.
      destruct (IH v Hprev Hne) as (t0 & z0 & Ht0 & Hz0 & Hflat & Hheld & Hs & Hl).
      exists t0, z0.
      split; [lia|]. split; [exact Hz0|]. split; [exact Hflat|].
      split; [|split; assumption].
      intros s Hs'. destruct (decide (s = S t)) as [-> | Hns].
      * unfold p.
        rewrite (strategy_lookup_step zs betas spreads entry exit stop
                   (S t) z v); [rewrite Hk; reflexivity | lia | exact Hz |].
        replace (S t - 1)%nat with t by lia. exact Hprev.
      * apply Hheld. lia.
Qed.

(** The short position at index 3 of the first scenario was opened at index 2
    by the z-score 2.5. *)
Lemma strategy_trade_origin_witness :
  ∃ (t0 : nat) (z0 : fval),
    (1 ≤ t0 ≤ 3)%nat ∧ scenario_z !! t0 = Some z0 ∧ fgtb z0 (Fin 2) = true.
Proof.
  destruct (strategy_trade_origin scenario_z tt tt (Fin 2) (Fin (1 # 2)) (Fin 4)
              3%nat (-1)) as (t0 & z0 & Ht0 & Hz0 & _ & _ & Hshort & _).
  - reflexivity.
  - lia.
  - exists t0, z0. split; [exact Ht0|]. split; [exact Hz0|].
    apply Hshort. reflexivity.
Defined.

(** ** Further properties of the analytics *)

(** *** Warm-up of the dynamic hedge ratio *)

Lemma dynamic_beta_short_at (K : accumulators) (x y : Series) (w t : nat) :
  (t < w - 1)%nat → at_label (beta_of K x y w) t = nan.
Proof.
  intros Hw.
  destruct (decide (t < length x `max` length y)%nat) as [Hlt | Hge].
  - rewrite (at_label_lookup _ _ _ (dynamic_beta_at K x y w t Hlt)).
    rewrite rolling_var_short by lia. apply div_nan_r.
  - apply at_label_beyond. rewrite beta_of_length. lia.
Qed.

(** X6. For a window [w], [compute_dynamic_beta] returns a series over the
    union of the two indexes whose first [w - 1] values are NaN: the rolling
    variance has fewer than [w] observations there. *)
Theorem compute_dynamic_beta_warm_up (K : accumulators) (x y : Series)
    (w : nat) :
  ∃ beta : Series,
    compute_dynamic_beta K x y (Z.of_nat w) = Returns beta
    ∧ length beta = (length x `max` length y)%nat
    ∧ ∀ t : nat,
        (t < w - 1)%nat → (t < length x `max` length y)%nat →
        beta !! t = Some nan.
Proof.
  eexists. split; [apply compute_dynamic_beta_of_nat|].
  split; [apply beta_of_length|].
  intros t Hw Hlt.
  rewrite lookup_at_label by (rewrite beta_of_length; exact Hlt).
  rewrite dynamic_beta_short_at by exact Hw. reflexivity.
Qed.

(** Window 3 over four points: the beta at index 1 is NaN. *)
Lemma compute_dynamic_beta_warm_up_witness :
  ∃ beta : Series,
    compute_dynamic_beta from_scratch [1; 2; 4; 7]%float [2; 3; 5; 9]%float 3
    = Returns beta
    ∧ beta !! 1%nat = Some nan.
Proof.
  destruct (compute_dynamic_beta_warm_up from_scratch
              [1; 2; 4; 7]%float [2; 3; 5; 9]%float 3%nat)
    as (beta & Hbeta & _ & Hnan).
  exists beta. split; [exact Hbeta|]. apply Hnan; simpl; lia.
Defined.

(** *** The spread, label by label *)

(** X7. The spread covers the labels of both price series, and at each of
    its labels it is [x - beta * y] on the values there, a series having NaN
    at a label it lacks; so the spread is NaN wherever the hedge ratio
    is. *)
Theorem compute_spread_pointwise (x y : Series) (beta : hedge) :
  (length x `max` length y ≤ length (compute_spread x y beta))%nat
  ∧ ∀ t : nat,
      (t < length (compute_spread x y beta))%nat →
      compute_spread x y beta !! t
      = Some (at_label x t - hedge_at beta t * at_label y t)%float
      ∧ (PrimFloat.is_nan (hedge_at beta t) = true →
         compute_spread x y beta !! t = Some nan).
Proof.
  split.
  - unfold compute_spread. rewrite align_with_length.
    pose proof (scale_length beta y). lia.
  - intros t Hlt. pose proof (compute_spread_at x y beta t Hlt) as Hat.
    split; [exact Hat|].
    intros Hnan. rewrite Hat. apply is_nan_eq in Hnan. rewrite Hnan.
    rewrite mul_nan_l, sub_nan_r. reflexivity.
Qed.

(** The dynamic beta [NaN; 2] against prices of length 2: the spread is NaN
    at label 0. *)
Lemma compute_spread_pointwise_witness :
  compute_spread [5; 7]%float [1; 3]%float (Dynamic [nan; 2]%float) !! 0%nat
  = Some nan.
Proof.
  destruct (compute_spread_pointwise [5; 7]%float [1; 3]%float
              (Dynamic [nan; 2]%float)) as [_ H].
  destruct (H 0%nat) as [_ Hnan].
  - simpl. lia.
  - apply Hnan. reflexivity.
Defined.

(** *** Missing values in the z-score *)

(** X8. A missing value anywhere in the window that ends at [t] makes the
    z-score at [t] NaN. *)
Theorem compute_zscore_missing_in_window (K : accumulators) (series : Series)
    (w t i : nat) :
  (t < length series)%nat → (t + 1 - w ≤ i ≤ t)%nat →
  series !! i = Some nan →
  ∃ z : Series,
    compute_zscore K series (Z.of_nat w) = Returns z
    ∧ z !! t = Some nan.
Proof.
  intros Hlt Hi Hnan. eexists. split; [apply compute_zscore_returns|].
  apply (zscore_missing_at K series w t i); assumption.
Qed.

(** A gap at index 1 leaves the z-score of window 2 NaN at index 2. *)
Lemma compute_zscore_missing_in_window_witness :
  ∃ z : Series,
    compute_zscore from_scratch [1; nan; 5]%float 2 = Returns z
    ∧ z !! 2%nat = Some nan.
Proof.
  apply (compute_zscore_missing_in_window from_scratch [1; nan; 5]%float
           2%nat 2%nat 1%nat).
  - simpl. lia.
  - lia.
  - reflexivity.
Defined.

(** X19. An infinite value anywhere in the window that ends at [t] makes the
    z-score at [t] NaN: the window functions take an infinity for a missing
    value. *)
Theorem compute_zscore_infinite_in_window (K : accumulators) (series : Series)
    (w t i : nat) (v : float) :
  (t < length series)%nat → (t + 1 - w ≤ i ≤ t)%nat →
  series !! i = Some v → PrimFloat.is_infinity v = true →
  ∃ z : Series,
    compute_zscore K series (Z.of_nat w) = Returns z
    ∧ z !! t = Some nan.
Proof.
  intros Hlt Hi Hv Hinf. eexists. split; [apply compute_zscore_returns|].
  rewrite zscore_at by exact Hlt.
  assert (Hmean : at_label (rolling_mean K w series) t = nan).
  { unfold rolling_mean. apply roll_mean_nan. left.
    apply (observations_missing w (prep_values series) t i nan Hi);
      [|reflexivity].
    unfold prep_values. rewrite list_lookup_fmap, Hv. simpl.
    rewrite Hinf. reflexivity. }
  rewrite Hmean, sub_nan_r, div_nan_l. reflexivity.
Qed.

(** An infinity at index 1 leaves the z-score of window 2 NaN at index 2. *)
Lemma compute_zscore_infinite_in_window_witness :
  ∃ z : Series,
    compute_zscore from_scratch [1; infinity; 5]%float 2 = Returns z
    ∧ z !! 2%nat = Some nan.
Proof.
  apply (compute_zscore_infinite_in_window from_scratch
           [1; infinity; 5]%float 2%nat 2%nat 1%nat infinity).
  - simpl. lia.
  - lia.
  - reflexivity.
  - reflexivity.
Defined.

(** *** Missing values in the dynamic hedge ratio *)

(** X20. A missing value of either series anywhere in the window that ends
    at [t] makes the dynamic beta at [t] NaN. *)
Theorem compute_dynamic_beta_missing_in_window (K : accumulators)
    (x y : Series) (w t i : nat) :
  (t < length x `max` length y)%nat → (t + 1 - w ≤ i ≤ t)%nat →
  x !! i = Some nan ∨ y !! i = Some nan →
  ∃ beta : Series,
    compute_dynamic_beta K x y (Z.of_nat w) = Returns beta
    ∧ beta !! t = Some nan.
Proof.
  intros Hlt Hi Hnan. eexists. split; [apply compute_dynamic_beta_of_nat|].
  rewrite dynamic_beta_at by exact Hlt.
  destruct Hnan as [Hx | Hy].
  - rewrite rolling_cov_mean_x_nan; [rewrite div_nan_l; reflexivity | exact Hlt |].
    apply roll_mean_nan. left.
    apply (observations_missing w (cov_x_array x y) t i nan Hi);
      [|reflexivity].
    apply cov_x_array_nan; [lia|]. apply at_label_lookup. exact Hx.
  - assert (Hvar : at_label (rolling_var K w y) t = nan).
    { unfold rolling_var. apply roll_var_nan.
      apply (observations_missing w (prep_values y) t i nan Hi);
        [apply prep_values_lookup_nan, Hy | reflexivity]. }
    rewrite Hvar, div_nan_r. reflexivity.
Qed.

(** A gap in [x] at index 1 leaves the beta of window 2 NaN at index 2. *)
Lemma compute_dynamic_beta_missing_in_window_witness :
  ∃ beta : Series,
    compute_dynamic_beta from_scratch [1; nan; 4; 7]%float [2; 3; 5; 9]%float 2
    = Returns beta
    ∧ beta !! 2%nat = Some nan.
Proof.
  apply (compute_dynamic_beta_missing_in_window from_scratch
           [1; nan; 4; 7]%float [2; 3; 5; 9]%float 2%nat 2%nat 1%nat).
  - simpl. lia.
  - lia.
  - left. reflexivity.
Defined.

(** *** The stationarity test *)

Lemma valid_leading_nan (k : nat) (s : Series) :
  valid (replicate k nan ++ s) = valid s.
Proof. induction k as [|k IH]; [reflexivity | exact IH]. Qed.

(** X13. [adf_test] hands the ADF primitive the series without its missing
    values: the primitive is only consulted on NaN-free input (two primitives
    that agree there give the same result), a warm-up of leading NaNs changes
    nothing, and a series without NaN is passed as it is. *)
Theorem adf_test_drops_missing (adf adf' : Series → outcome float)
    (series : Series) (k : nat) :
  ((∀ arg : Series,
      Forall (λ v, PrimFloat.is_nan v = false) arg → adf arg = adf' arg) →
   adf_test adf series = adf_test adf' series)
  ∧ adf_test adf (replicate k nan ++ series) = adf_test adf series
  ∧ (Forall (λ v, PrimFloat.is_nan v = false) series →
     adf_test adf series = adf series).
Proof.
  unfold adf_test. split; [|split].
  - intros Hagree. apply Hagree, valid_no_nan.
  - rewrite valid_leading_nan. reflexivity.
  - intros Hclean. rewrite valid_id by exact Hclean. reflexivity.
Qed.

(** A primitive that only counts its observations sees 2 of them in
    [NaN; 1; 2]: the leading NaN is dropped, and [1; 2] is passed as it
    is. *)
Lemma adf_test_drops_missing_witness :
  adf_test (λ s, Returns (of_nat (length s))) [nan; 1; 2]%float
  = Returns 2%float.
Proof.
  destruct (adf_test_drops_missing (λ s, Returns (of_nat (length s)))
              (λ s, Returns (of_nat (length s))) [1; 2]%float 1)
    as (_ & Hdrop & Hkeep).
  change [nan; 1; 2]%float with (replicate 1 nan ++ [1; 2]%float).
  rewrite Hdrop. rewrite Hkeep; [reflexivity|].
  repeat constructor.
Defined.

(** *** The pipelines *)

Lemma position_missing (name : string) (labels : list string) :
  name ∉ labels → position name labels = None.
Proof.
  induction labels as [|k rest IH]; simpl; [reflexivity|].
  intros Hnot. destruct (String.eqb k name) eqn:Hk.
  - apply String.eqb_eq in Hk. subst k. exfalso. apply Hnot.
    apply list_elem_of_here.
  - rewrite IH; [reflexivity|].
    intros Hin. apply Hnot. apply list_elem_of_further. exact Hin.
Qed.

Lemma getitem_missing (df : DataFrame) (name : string) :
  name ∉ df_columns df → getitem df name = Raises "KeyError".
Proof.
  intros Hnot. unfold getitem. rewrite position_missing by exact Hnot.
  reflexivity.
Qed.

(** X14. A column name the frame does not have makes both pipelines raise
    KeyError, whatever the window and the numerical primitives: the two
    lookups come before everything else. *)
Theorem analyze_pair_missing_column (K : accumulators)
    (ols_slope : Series → Series → outcome float)
    (adfuller_pvalue : Series → outcome float)
    (df : DataFrame) (x y : string) (window : Z) :
  x ∉ df_columns df ∨ y ∉ df_columns df →
  analyze_pair_static K ols_slope adfuller_pvalue df x y window
  = Raises "KeyError"
  ∧ analyze_pair_dynamic K adfuller_pvalue df x y window
    = Raises "KeyError".
Proof.
  intros Hmissing. unfold analyze_pair_static, analyze_pair_dynamic.
  destruct (getitem df x) as [X | e] eqn:HX.
  - destruct Hmissing as [Hx | Hy].
    + rewrite getitem_missing in HX by exact Hx. discriminate.
    + rewrite (getitem_missing df y Hy). simpl. split; reflexivity.
  - apply getitem_raises in HX. subst e. simpl. split; reflexivity.
Qed.

(** Two columns of four prices. *)
Definition prices : DataFrame :=
  {| df_columns := ["A"; "B"];
     df_rows := [[1; 2]; [2; 3]; [4; 5]; [7; 9]]%float |}.

(** The frame has no column C. *)
Lemma analyze_pair_missing_column_witness :
  analyze_pair_dynamic from_scratch (λ _, Returns 0.5%float) prices "A" "C" 2
  = Raises "KeyError".
Proof.
  apply (analyze_pair_missing_column from_scratch (λ _ _, Returns 2%float)
           (λ _, Returns 0.5%float) prices "A" "C" 2).
  right. simpl. intros Hin.
  repeat (apply elem_of_cons in Hin as [Hin | Hin]; [discriminate|]).
  inversion Hin.
Defined.

Lemma compute_zscore_length (K : accumulators) (series z : Series)
    (window : Z) :
  compute_zscore K series window = Returns z → length z = length series.
Proof.
  unfold compute_zscore. destruct (rolling window) as [r | e]; simpl;
    [|discriminate].
  intros Heq. injection Heq as <-. apply (zscore_of_length K).
Qed.

Lemma compute_dynamic_beta_length (K : accumulators) (x y beta : Series)
    (window : Z) :
  compute_dynamic_beta K x y window = Returns beta →
  length beta = (length x `max` length y)%nat.
Proof.
  unfold compute_dynamic_beta. destruct (rolling window) as [r | e]; simpl;
    [|discriminate].
  intros Heq. injection Heq as <-. apply (beta_of_length K).
Qed.

Lemma compute_spread_length (x y : Series) (beta : hedge) :
  length (compute_spread x y beta)
  = match beta with
    | Static _ => (length x `max` length y)%nat
    | Dynamic bs => (length x `max` (length bs `max` length y))%nat
    end.
Proof.
  unfold compute_spread. rewrite align_with_length.
  destruct beta; simpl; rewrite ?length_fmap, ?align_with_length; reflexivity.
Qed.

(** X15. On a frame of [n] rows, whatever a pipeline returns has the index
    of the inputs: spread and z-score have [n] values, and so has the beta
    series of the dynamic pipeline. *)
Theorem analyze_pair_result_index (K : accumulators)
    (ols_slope : Series → Series → outcome float)
    (adfuller_pvalue : Series → outcome float)
    (df : DataFrame) (x y : string) (window : Z) (n : nat) (r : result) :
  length (df_rows df) = n →
  analyze_pair_static K ols_slope adfuller_pvalue df x y window = Returns r
  ∨ analyze_pair_dynamic K adfuller_pvalue df x y window = Returns r →
  length (res_spread r) = n
  ∧ length (res_zscore r) = n
  ∧ ∀ bs : Series, res_beta r = Dynamic bs → length bs = n.
Proof.
  intros Hrows Hret.
  unfold analyze_pair_static, analyze_pair_dynamic in Hret.
  destruct (getitem df x) as [X | e1] eqn:HX;
    [|destruct Hret; discriminate].
  destruct (getitem df y) as [Y | e2] eqn:HY;
    [|destruct Hret; discriminate].
  apply getitem_length in HX, HY. rewrite Hrows in HX, HY.
  simpl in Hret.
  destruct Hret as [Hs | Hd].
  - unfold compute_static_beta in Hs.
    destruct (ols_slope X Y) as [b | e3]; simpl in Hs; [|discriminate].
    destruct (compute_zscore K _ window) as [z | e4] eqn:Hz;
      simpl in Hs; [|discriminate].
    destruct (adf_test adfuller_pvalue _) as [p | e5]; simpl in Hs;
      [|discriminate].
    injection Hs as <-. simpl.
    apply compute_zscore_length in Hz.
    rewrite Hz, compute_spread_length, HX, HY.
    split; [lia|]. split; [lia|]. discriminate.
  - destruct (compute_dynamic_beta K X Y window) as [bs | e3] eqn:Hb;
      simpl in Hd; [|discriminate].
    destruct (compute_zscore K _ window) as [z | e4] eqn:Hz;
      simpl in Hd; [|discriminate].
    destruct (adf_test adfuller_pvalue _) as [p | e5]; simpl in Hd;
      [|discriminate].
    injection Hd as <-. simpl.
    apply compute_zscore_length in Hz.
    apply compute_dynamic_beta_length in Hb.
    rewrite Hz, compute_spread_length, Hb, HX, HY.
    split; [lia|]. split; [lia|].
    intros bs' Heq. injection Heq as <-. lia.
Qed.

(** The dynamic pipeline over [prices] returns a spread of four values. *)
Lemma analyze_pair_result_index_witness :
  ∃ r : result,
    analyze_pair_dynamic from_scratch (λ _, Returns 0.5%float)
                         prices "A" "B" 2 = Returns r
    ∧ length (res_spread r) = 4%nat.
Proof.
  destruct (analyze_pair_dynamic from_scratch (λ _, Returns 0.5%float)
              prices "A" "B" 2) as [r | e] eqn:Hr.
  - exists r. split; [reflexivity|].
    refine (proj1 (analyze_pair_result_index from_scratch
                     (λ _ _, Returns 2%float) (λ _, Returns 0.5%float)
                     prices "A" "B" 2 4%nat r _ _)).
    + reflexivity.
    + right. exact Hr.
  - vm_compute in Hr. discriminate.
Defined.

(** *** Warm-up through the pipeline and the state machine *)

(** The z-scores as [strategy] reads them. *)
Definition z_values (z : Series) : list fval := of_float <$> z.

Lemma z_values_nan (z : Series) (t : nat) :
  z !! t = Some nan → z_values z !! t = Some NaN.
Proof. intros H. unfold z_values. rewrite list_lookup_fmap, H. reflexivity. Qed.

(** Undefined z-scores from index 1 on keep the position at 0. *)
Lemma strategy_flat_on_nan_prefix {TB TS : Type}
    (zs : list fval) (betas : TB) (spreads : TS) (entry exit stop : fval)
    (t : nat) :
  (t < length zs)%nat →
  (∀ s : nat, (1 ≤ s ≤ t)%nat → zs !! s = Some NaN) →
  strategy zs betas spreads entry exit stop !! t = Some 0.
Proof.
  induction t as [|t IH]; intros Hlt Hnan.
  - apply strategy_first. exact Hlt.
  - rewrite (strategy_lookup_step zs betas spreads entry exit stop (S t) NaN 0).
    + rewrite transition_nan. reflexivity.
    + lia.
    + apply Hnan. lia.
    + replace (S t - 1)%nat with t by lia. apply IH; [lia|].
      intros s Hs. apply Hnan. lia.
Qed.

(** What the dynamic pipeline returns, when it returns. *)
Lemma analyze_pair_dynamic_inv (K : accumulators)
    (adfuller_pvalue : Series → outcome float)
    (df : DataFrame) (x y : string) (w : nat) (r : result) :
  analyze_pair_dynamic K adfuller_pvalue df x y (Z.of_nat w) = Returns r →
  ∃ X Y : Series,
    let bs := beta_of K X Y w in
    let spread := compute_spread X Y (Dynamic bs) in
    getitem df x = Returns X ∧ getitem df y = Returns Y
    ∧ res_beta r = Dynamic bs
    ∧ res_spread r = spread
    ∧ res_zscore r = zscore_of K spread w.
Proof.
  unfold analyze_pair_dynamic.
  destruct (getitem df x) as [X | e1]; simpl; [|discriminate].
  destruct (getitem df y) as [Y | e2]; simpl; [|discriminate].
  rewrite compute_dynamic_beta_of_nat. simpl.
  rewrite compute_zscore_returns. simpl.
  destruct (adf_test adfuller_pvalue _) as [p | e5]; simpl; [|discriminate].
  intros Heq. injection Heq as <-. exists X, Y. simpl.
  repeat split; reflexivity.
Qed.

(** X16. In the dynamic pipeline the warm-up adds up: with window [w] the
    spread is NaN at the first [w - 1] labels, the z-score at the first
    [2 (w - 1)], and [strategy] run on that z-score is FLAT at all of them. *)
Theorem analyze_pair_dynamic_warm_up {TB TS : Type} (K : accumulators)
    (adfuller_pvalue : Series → outcome float)
    (df : DataFrame) (x y : string) (w : nat) (r : result)
    (betas : TB) (spreads : TS) (entry exit stop : fval) (t : nat) :
  analyze_pair_dynamic K adfuller_pvalue df x y (Z.of_nat w) = Returns r →
  (t < length (res_zscore r))%nat →
  ((t < w - 1)%nat → res_spread r !! t = Some nan)
  ∧ ((t < 2 * (w - 1))%nat →
     res_zscore r !! t = Some nan
     ∧ strategy (z_values (res_zscore r)) betas spreads entry exit stop !! t
       = Some 0).
Proof.
  intros Hret Hlt.
  destruct (analyze_pair_dynamic_inv _ _ _ _ _ _ _ Hret)
    as (X & Y & _ & _ & _ & Hspread & Hz).
  cbv zeta in Hspread, Hz.
  set (bs := beta_of K X Y w) in *.
  set (spread := compute_spread X Y (Dynamic bs)) in *.
  assert (Hlen : length (res_zscore r) = length spread).
  { rewrite Hz. apply zscore_of_length. }
  assert (Hsp : ∀ s, (s < w - 1)%nat → (s < length spread)%nat →
                     spread !! s = Some nan).
  { intros s Hs Hsl. unfold spread. rewrite compute_spread_at by exact Hsl.
    simpl. unfold bs. rewrite dynamic_beta_short_at by exact Hs.
    rewrite mul_nan_l, sub_nan_r. reflexivity. }
  assert (Hzs : ∀ s, (s < 2 * (w - 1))%nat → (s < length spread)%nat →
                     res_zscore r !! s = Some nan).
  { intros s Hs Hsl. rewrite Hz.
    destruct (decide (s < w - 1)%nat) as [Hshort | Hlong].
    - apply zscore_short_at; assumption.
    - apply (zscore_missing_at K spread w s (s + 1 - w)); [exact Hsl | lia |].
      apply Hsp; lia. }
  split.
  - intros Hw. rewrite Hspread. apply Hsp; lia.
  - intros Hw. split; [apply Hzs; lia|].
    apply strategy_flat_on_nan_prefix.
    + unfold z_values. rewrite length_fmap. exact Hlt.
    + intros s Hs. apply z_values_nan. apply Hzs; lia.
Qed.

(** Six prices, window 3: the z-score at index 3 is still NaN. *)
Definition prices6 : DataFrame :=
  {| df_columns := ["A"; "B"];
     df_rows := [[1; 2]; [2; 3]; [4; 5]; [7; 9]; [8; 10]; [12; 11]]%float |}.

Lemma analyze_pair_dynamic_warm_up_witness :
  ∃ r : result,
    analyze_pair_dynamic from_scratch (λ _, Returns 0.5%float)
                         prices6 "A" "B" 3 = Returns r
    ∧ res_zscore r !! 3%nat = Some nan.
Proof.
  destruct (analyze_pair_dynamic from_scratch (λ _, Returns 0.5%float)
              prices6 "A" "B" 3) as [r | e] eqn:Hr.
  - exists r. split; [reflexivity|].
    refine (proj1 (proj2 (analyze_pair_dynamic_warm_up from_scratch
                     (λ _, Returns 0.5%float) prices6 "A" "B" 3%nat r
                     tt tt default_entry default_exit default_stop 3%nat _ _) _)).
    + exact Hr.
    + vm_compute in Hr. injection Hr as <-. simpl. lia.
    + lia.
  - vm_compute in Hr. discriminate.
Defined.

(** X17. In the static pipeline the window only shapes the z-score: two runs
    over the same frame with different windows return the same beta, the same
    spread and the same ADF p-value. *)
Theorem analyze_pair_static_window (K : accumulators)
    (ols_slope : Series → Series → outcome float)
    (adfuller_pvalue : Series → outcome float)
    (df : DataFrame) (x y : string) (window window' : Z) (r r' : result) :
  analyze_pair_static K ols_slope adfuller_pvalue df x y window = Returns r →
  analyze_pair_static K ols_slope adfuller_pvalue df x y window' = Returns r' →
  res_beta r = res_beta r'
  ∧ res_spread r = res_spread r'
  ∧ res_adf_p r = res_adf_p r'.
Proof.
  unfold analyze_pair_static, compute_static_beta.
  destruct (getitem df x) as [X | e1]; simpl; [|discriminate].
  destruct (getitem df y) as [Y | e2]; simpl; [|discriminate].
  destruct (ols_slope X Y) as [b | e3]; simpl; [|discriminate].
  destruct (compute_zscore K _ window) as [z | e4]; simpl; [|discriminate].
  destruct (compute_zscore K _ window') as [z' | e4']; simpl; [|discriminate].
  destruct (adf_test adfuller_pvalue _) as [p | e5]; simpl; [|discriminate].
  intros Heq Heq'. injection Heq as <-. injection Heq' as <-.
  repeat split; reflexivity.
Qed.

(** Windows 2 and 3 over [prices]: the same spread. *)
Lemma analyze_pair_static_window_witness :
  ∃ r r' : result,
    analyze_pair_static from_scratch (λ _ _, Returns 2%float)
                        (λ _, Returns 0.5%float) prices "A" "B" 2 = Returns r
    ∧ analyze_pair_static from_scratch (λ _ _, Returns 2%float)
                          (λ _, Returns 0.5%float) prices "A" "B" 3 = Returns r'
    ∧ res_spread r = res_spread r'.
Proof.
  destruct (analyze_pair_static from_scratch (λ _ _, Returns 2%float)
              (λ _, Returns 0.5%float) prices "A" "B" 2) as [r | e] eqn:Hr;
    [|vm_compute in Hr; discriminate].
  destruct (analyze_pair_static from_scratch (λ _ _, Returns 2%float)
              (λ _, Returns 0.5%float) prices "A" "B" 3) as [r' | e] eqn:Hr';
    [|vm_compute in Hr'; discriminate].
  exists r, r'. split; [reflexivity|]. split; [reflexivity|].
  exact (proj1 (proj2 (analyze_pair_static_window from_scratch
                         (λ _ _, Returns 2%float) (λ _, Returns 0.5%float)
                         prices "A" "B" 2 3 r r' Hr Hr'))).
Defined.

(** X18. [strategy] run on the z-score of [compute_zscore] stays FLAT through
    the warm-up: the position is 0 at each of the first [w - 1] labels. *)
Theorem strategy_flat_during_warm_up {TB TS : Type} (K : accumulators)
    (series z : Series) (w : nat) (betas : TB) (spreads : TS)
    (entry exit stop : fval) (t : nat) :
  compute_zscore K series (Z.of_nat w) = Returns z →
  (t < w - 1)%nat → (t < length series)%nat →
  strategy (z_values z) betas spreads entry exit stop !! t = Some 0.
Proof.
  intros Hz Hw Hlt.
  rewrite compute_zscore_returns in Hz. injection Hz as <-.
  apply strategy_flat_on_nan_prefix.
  - unfold z_values. rewrite length_fmap, zscore_of_length. exact Hlt.
  - intros s Hs. apply z_values_nan. apply zscore_short_at; lia.
Qed.

(** Window 3 over [1; 9; 2; 8]: FLAT at index 1, whatever the thresholds. *)
Lemma strategy_flat_during_warm_up_witness :
  ∃ z : Series,
    compute_zscore from_scratch [1; 9; 2; 8]%float 3 = Returns z
    ∧ strategy (z_values z) tt tt (Fin 0) (Fin 0) (Fin 0) !! 1%nat = Some 0.
Proof.
  destruct (compute_zscore from_scratch [1; 9; 2; 8]%float 3)
    as [z | e] eqn:Hz; [|vm_compute in Hz; discriminate].
  exists z. split; [reflexivity|].
  apply (strategy_flat_during_warm_up from_scratch [1; 9; 2; 8]%float
           z 3%nat tt tt (Fin 0) (Fin 0) (Fin 0) 1%nat Hz).
  - lia.
  - simpl. lia.
Defined.
